(** * dsfs: vector/matrix algebra and descriptive statistics

    A shallow embedding of [algebra.py] and [statistics.py].

    The Python functions are duck-typed over the numbers stored in the
    lists they receive; the embedding keeps them generic over an
    interface [Scalar] of the numeric operations the source uses, and
    gives two instances: IEEE binary64 floats (Python's [float], the
    element type the annotations declare; it computes) and the real
    numbers (exact arithmetic).  An int stored in a list is read as the
    float it denotes, which is exact below 2^53.  Python exceptions are
    values of [exn]; a function that can raise returns a [result]. *)

From Stdlib Require Import String.
From Stdlib Require Import ZArith List Bool Lia Permutation Sorted.
From Stdlib Require Import Floats Reals Lra Psatz.
Import ListNotations.

Set Implicit Arguments.
Set Warnings "-inexact-float".

(** ** Python run-time: exceptions, indexing, [sum], [max] *)

Inductive exn : Type :=
| AssertionError (msg : string)
| ZeroDivisionError
| IndexError
| ValueError
| OverflowError.

Inductive result (A : Type) : Type :=
| Ok (a : A)
| Raise (e : exn).

Arguments Ok {A} a.
Arguments Raise {A} e.

Definition bind {A B : Type} (m : result A) (k : A -> result B) : result B :=
  match m with
  | Ok a => k a
  | Raise e => Raise e
  end.

Notation "x <- m ;; k" := (bind m (fun x => k))
  (at level 61, m at next level, right associativity).

(** [[f(x) for x in xs]]: elements are evaluated left to right and the
    first exception aborts the comprehension. *)
Fixpoint mapM {A B : Type} (f : A -> result B) (xs : list A) : result (list B) :=
  match xs with
  | [] => Ok []
  | x :: xs' => y <- f x ;; ys <- mapM f xs' ;; Ok (y :: ys)
  end.

(** [xs[i]] for a list [xs] and an int [i]: a negative index counts from
    the end; outside [-len(xs), len(xs)) it raises [IndexError]. *)
Definition py_index {A : Type} (xs : list A) (i : Z) : result A :=
  let n := Z.of_nat (length xs) in
  let k := if (i <? 0)%Z then (i + n)%Z else i in
  if ((0 <=? k) && (k <? n))%Z
  then match nth_error xs (Z.to_nat k) with
       | Some x => Ok x
       | None => Raise IndexError
       end
  else Raise IndexError.

(** The position an in-range index denotes. *)
Definition position {A : Type} (xs : list A) (i : Z) : nat :=
  Z.to_nat (if (i <? 0)%Z then (i + Z.of_nat (length xs))%Z else i).

(** [max(ns)] over ints: [ValueError] on an empty sequence. *)
Definition py_max (ns : list nat) : result nat :=
  match ns with
  | [] => Raise ValueError
  | n :: ns' => Ok (fold_left Nat.max ns' n)
  end.

(** ** The numbers *)

(** What the source asks of the numbers it handles.  [of_int] is the
    conversion Python applies to an int operand that meets a float;
    [to_int] is [int(x)]. *)
Class Scalar (S : Type) : Type := {
  of_int : Z -> S;
  fadd : S -> S -> S;
  fsub : S -> S -> S;
  fmul : S -> S -> S;
  fdiv : S -> S -> S;
  fsqrt : S -> S;
  flt : S -> S -> bool;
  feq : S -> S -> bool;
  to_int : S -> result Z
}.

Section PyNumbers.
Context {S : Type} `{Scalar S}.

(** [sum(xs)]: starts from the int [0] and adds from the left. *)
Definition py_sum (xs : list S) : S := fold_left fadd xs (of_int 0).

(** [x / n] with [n] an int ([len(...)] or a literal).  Python raises
    [ZeroDivisionError] exactly when [n] is [0]: a non-zero int never
    converts to a zero float. *)
Definition truediv (x : S) (n : Z) : result S :=
  if (n =? 0)%Z then Raise ZeroDivisionError else Ok (fdiv x (of_int n)).

(** [math.sqrt(x)]: [ValueError] below zero. *)
Definition math_sqrt (x : S) : result S :=
  if flt x (of_int 0) then Raise ValueError else Ok (fsqrt x).

(** [sorted(xs)]: a new list, stable, ordered by [<].  It is the list
    Python builds whenever [<] orders the elements, as it does for
    numbers without a NaN; on a list holding a NaN the comparisons are
    inconsistent and CPython's merge sort may leave another
    permutation. *)
Fixpoint insert (x : S) (l : list S) : list S :=
  match l with
  | [] => [x]
  | y :: l' => if flt x y then x :: y :: l' else y :: insert x l'
  end.

Definition sorted (xs : list S) : list S :=
  fold_left (fun acc x => insert x acc) xs [].

(** [a] may stand before [b] in a sorted list: [b < a] is false. *)
Definition in_order (a b : S) : Prop := flt b a = false.

(** The column [i] of a list of vectors: what [vec[i] for vec in vectors]
    yields when every index is in range. *)
Definition column (vectors : list (list S)) (i : nat) : list S :=
  map (fun vec => nth i vec (of_int 0)) vectors.
End PyNumbers.

(** ** algebra.py *)

Module Algebra.
Section Generic.
Context {S : Type} `{Scalar S}.

Definition Vector : Type := list S.
Definition Matrix : Type := list (list S).

Definition add (v w : Vector) : result Vector :=
  if (length v =? length w)%nat
  then Ok (map (fun p => fadd (fst p) (snd p)) (combine v w))
  else Raise (AssertionError "both vectors must have the same length"%string).

Definition subtract (v w : Vector) : result Vector :=
  if (length v =? length w)%nat
  then Ok (map (fun p => fsub (fst p) (snd p)) (combine v w))
  else Raise (AssertionError "both vectors must have the same length"%string).

Definition vector_sum (vectors : list Vector) : result Vector :=
  match vectors with
  | [] => Raise (AssertionError "no vectors provided"%string)
  | v0 :: _ =>
      let num_elements := length v0 in
      if forallb (fun v => (length v =? num_elements)%nat) vectors
      then mapM (fun i => col <- mapM (fun vec => py_index vec (Z.of_nat i)) vectors ;;
                          Ok (py_sum col))
                (seq 0 num_elements)
      else Raise (AssertionError "vectors must be the same length"%string)
  end.

Definition scalar_multiply (s : S) (v : Vector) : Vector :=
  map (fun v_item => fmul s v_item) v.

(** The arguments of the call are evaluated left to right: [1/n]
    comes before [vector_sum(vectors)]. *)
Definition vector_mean (vectors : list Vector) : result Vector :=
  let n := Z.of_nat (length vectors) in
  s <- truediv (of_int 1) n ;;
  t <- vector_sum vectors ;;
  Ok (scalar_multiply s t).

Definition dot (v w : Vector) : result S :=
  if (length v =? length w)%nat
  then Ok (py_sum (map (fun p => fmul (fst p) (snd p)) (combine v w)))
  else Raise (AssertionError "vectors must be the same length"%string).

Definition sum_of_squares (v : Vector) : result S := dot v v.

Definition magnitude (v : Vector) : result S :=
  ss <- sum_of_squares v ;; math_sqrt ss.

Definition distance (v w : Vector) : result S :=
  d <- subtract v w ;; magnitude d.

Definition shape (A : Matrix) : nat * nat :=
  let num_rows := length A in
  let num_cols := match A with [] => O | A0 :: _ => length A0 end in
  (num_rows, num_cols).

Definition get_row (A : Matrix) (i : Z) : result Vector := py_index A i.

Definition get_column (A : Matrix) (j : Z) : result Vector :=
  mapM (fun A_i => py_index A_i j) A.

Definition make_matrix (num_rows num_cols : nat) (entry_fn : nat -> nat -> S) : Matrix :=
  map (fun i => map (fun j => entry_fn i j) (seq 0 num_cols)) (seq 0 num_rows).

Definition identity_matrix (n : nat) : Matrix :=
  make_matrix n n (fun i j => if (i =? j)%nat then of_int 1 else of_int 0).
End Generic.
End Algebra.

(** ** statistics.py *)

Module Statistics.
Section Generic.
Context {S : Type} `{Scalar S}.

Definition mean (xs : list S) : result S :=
  truediv (py_sum xs) (Z.of_nat (length xs)).

Definition _median_odd (xs : list S) : result S :=
  py_index (sorted xs) (Z.of_nat (length xs) / 2).

Definition _median_even (xs : list S) : result S :=
  let sorted_xs := sorted xs in
  let hi_midpoint := (Z.of_nat (length xs) / 2)%Z in
  lo <- py_index sorted_xs (hi_midpoint - 1) ;;
  hi <- py_index sorted_xs hi_midpoint ;;
  truediv (fadd lo hi) 2.

Definition median (v : list S) : result S :=
  if (Z.of_nat (length v) mod 2 =? 0)%Z then _median_even v else _median_odd v.

Definition quantile (xs : list S) (p : S) : result S :=
  p_index <- to_int (fmul p (of_int (Z.of_nat (length xs)))) ;;
  py_index (sorted xs) p_index.

(** [Counter(x)]: a dict from each distinct value to its number of
    occurrences; keys stay in order of first occurrence and a key is
    found by [==] against the stored key.  (A Python dict tries the
    identity of the object before [==]; the two differ only for one
    NaN object met twice, which Python counts as one key.) *)
Fixpoint counter_incr (k : S) (counts : list (S * nat)) : list (S * nat) :=
  match counts with
  | [] => [(k, 1%nat)]
  | (k', c) :: rest =>
      if feq k' k then (k', Datatypes.S c) :: rest
      else (k', c) :: counter_incr k rest
  end.

Definition Counter (x : list S) : list (S * nat) :=
  fold_left (fun counts x_i => counter_incr x_i counts) x [].

(** [counts[k]]: a [Counter] answers 0 for a key it does not hold. *)
Fixpoint counter_get (counts : list (S * nat)) (k : S) : nat :=
  match counts with
  | [] => 0%nat
  | (k', c) :: rest => if feq k' k then c else counter_get rest k
  end.

(** No two keys of a [Counter] are [==]. *)
Definition distinct_keys (counts : list (S * nat)) : Prop :=
  ForallOrdPairs (fun a b => feq a b = false) (map fst counts).

(** How many elements of [xs] are [==] to [k]. *)
Definition occurrences (k : S) (xs : list S) : nat :=
  length (filter (fun x => feq k x) xs).

Definition mode (x : list S) : result (list S) :=
  let counts := Counter x in
  max_count <- py_max (map snd counts) ;;
  Ok (map fst (filter (fun kc => (snd kc =? max_count)%nat) counts)).
End Generic.
End Statistics.

(** ** 5_statistics.py: the histogram of friend counts *)

Module FriendCounts.
Section Generic.
Context {S : Type} `{Scalar S}.

(** [ys = [friends_counts[x] for x in xs]] with [xs = range(101)]. *)
Definition ys (num_friends : list S) : list nat :=
  let friends_counts := Statistics.Counter num_friends in
  let xs := seq 0 101 in
  map (fun x => Statistics.counter_get friends_counts (of_int (Z.of_nat x))) xs.
End Generic.
End FriendCounts.

(** ** n_tuples.py: the [Vector] class

    A [Vector] instance holds a reference to a list of numbers
    ([items]) and the length it had when the instance was made
    ([length]).  Lists of numbers, [Vector] instances and lists of
    [Vector] instances live in a heap, each kind in a store of its own,
    and a reference is a position in its store. *)

Module NTuples.
Section Generic.
Context {S : Type} `{Scalar S}.

Definition ref : Type := nat.

Record VectorObj : Type := mkVector { items : ref; length : Z }.

Record heap : Type := mkHeap {
  lists : list (list S);
  vectors : list VectorObj;
  vector_lists : list (list ref)
}.

(** What an argument can be at run time, for [isinstance]. *)
Inductive object : Type :=
| a_Vector (v : ref)
| a_list (l : ref).

Definition list_at (h : heap) (l : ref) : list S := nth l (lists h) [].
Definition vector_at (h : heap) (v : ref) : VectorObj := nth v (vectors h) (mkVector O 0%Z).
Definition vector_list_at (h : heap) (l : ref) : list ref := nth l (vector_lists h) [].

(** [self.items], as the list it refers to. *)
Definition items_of (h : heap) (v : ref) : list S := list_at h (items (vector_at h v)).

(** [len(v)], that is [v.__len__()]: the stored [length]. *)
Definition len (h : heap) (v : ref) : Z := length (vector_at h v).

Fixpoint list_set {X : Type} (n : nat) (x : X) (l : list X) : list X :=
  match l, n with
  | [], _ => []
  | _ :: l', O => x :: l'
  | y :: l', Datatypes.S n' => y :: list_set n' x l'
  end.

(** A new list object. *)
Definition new_list (xs : list S) (h : heap) : ref * heap :=
  (Datatypes.length (lists h), mkHeap (lists h ++ [xs]) (vectors h) (vector_lists h)).

(** [Vector(items)]: [__init__] keeps the reference and the length. *)
Definition Vector (its : ref) (h : heap) : ref * heap :=
  (Datatypes.length (vectors h),
   mkHeap (lists h)
          (vectors h ++ [mkVector its (Z.of_nat (Datatypes.length (list_at h its)))])
          (vector_lists h)).

(** [self.items = new]: the attribute is rebound; no list is changed. *)
Definition set_items (self new : ref) (h : heap) : heap :=
  mkHeap (lists h)
         (list_set self (mkVector new (length (vector_at h self))) (vectors h))
         (vector_lists h).

(** [vectors.append(v)]: the list object itself grows. *)
Definition append (vs v : ref) (h : heap) : heap :=
  mkHeap (lists h) (vectors h)
         (list_set vs (vector_list_at h vs ++ [v]) (vector_lists h)).

(** The end of [add], [subtract] and [vector_sum]: rebind [self.items]
    and return [None], or return a new [Vector]. *)
Definition finish (self : ref) (inplace : bool) (elements : list S) (h : heap)
  : result (option ref) * heap :=
  let (new, h1) := new_list elements h in
  if inplace then (Ok None, set_items self new h1)
  else let (v, h2) := Vector new h1 in (Ok (Some v), h2).

Definition add (self : ref) (other : object) (inplace : bool) (h : heap)
  : result (option ref) * heap :=
  match other with
  | a_list _ => (Raise (AssertionError "item to be added must be a Vector"%string), h)
  | a_Vector other =>
      if (len h self =? len h other)%Z
      then let sum_of_elements :=
             map (fun p => fadd (fst p) (snd p))
                 (combine (items_of h self) (items_of h other)) in
           finish self inplace sum_of_elements h
      else (Raise (AssertionError "vectors should be the same length"%string), h)
  end.

Definition __add__ (self : ref) (other : object) (h : heap)
  : result (option ref) * heap :=
  add self other false h.

Definition subtract (self : ref) (other : object) (inplace : bool) (h : heap)
  : result (option ref) * heap :=
  match other with
  | a_list _ => (Raise (AssertionError "item to be subtracted must be a Vector"%string), h)
  | a_Vector other =>
      if (len h self =? len h other)%Z
      then let sub_of_elements :=
             map (fun p => fsub (fst p) (snd p))
                 (combine (items_of h self) (items_of h other)) in
           finish self inplace sub_of_elements h
      else (Raise (AssertionError "vectors should be the same length"%string), h)
  end.

Definition __sub__ (self : ref) (other : object) (h : heap)
  : result (option ref) * heap :=
  subtract self other false h.

(** [range(n)] for an int [n]. *)
Definition range (n : Z) : list Z := map Z.of_nat (seq 0 (Z.to_nat n)).

Definition vector_sum (self : ref) (vectors : ref) (inplace : bool) (h : heap)
  : result (option ref) * heap :=
  match vector_list_at h vectors with
  | [] => (Raise (AssertionError "no vectors provided"%string), h)
  | _ :: _ =>
      let h1 := append vectors self h in
      let vs := vector_list_at h1 vectors in
      let num_elements := len h1 (hd O vs) in
      if forallb (fun v => (len h1 v =? num_elements)%Z) vs
      then match mapM (fun i => col <- mapM (fun vec => py_index (items_of h1 vec) i) vs ;;
                                Ok (py_sum col))
                      (range num_elements) with
           | Ok sum_of_all => finish self inplace sum_of_all h1
           | Raise e => (Raise e, h1)
           end
      else (Raise (AssertionError "vectors must be the same length"%string), h1)
  end.

(** Every reference points into its store and every [Vector] has the
    [length] of its list. *)
Definition well_formed (h : heap) : Prop :=
  Forall (fun v => (items v < Datatypes.length (lists h))%nat /\
                   length v = Z.of_nat (Datatypes.length (nth (items v) (lists h) [])))
         (vectors h) /\
  Forall (Forall (fun v => (v < Datatypes.length (vectors h))%nat)) (vector_lists h).
End Generic.
End NTuples.

(** ** List objects

    A Python list is a mutable object and a name holds a reference to
    it.  The functions of [statistics.py] that sort are given once more
    over a store of list objects, to tell [sorted(xs)], which builds a
    new list, from a sort in place. *)

Module Refs.
Section Generic.
Context {S : Type} `{Scalar S}.

Definition ref : Type := nat.
Definition store : Type := list (list S).

Definition contents (st : store) (r : ref) : list S := nth r st [].

Definition M (A : Type) : Type := store -> result A * store.

Definition bindM {A B : Type} (m : M A) (k : A -> M B) : M B :=
  fun st => match m st with
            | (Ok a, st') => k a st'
            | (Raise e, st') => (Raise e, st')
            end.

Definition lift {A : Type} (r : result A) : M A := fun st => (r, st).

(** [len(xs)] *)
Definition len (xs : ref) : M Z :=
  fun st => (Ok (Z.of_nat (length (contents st xs))), st).

(** [xs[i]] *)
Definition getitem (xs : ref) (i : Z) : M S :=
  fun st => (py_index (contents st xs) i, st).

(** [sorted(xs)]: allocates the sorted list and returns its reference. *)
Definition new_sorted (xs : ref) : M ref :=
  fun st => (Ok (length st), st ++ [sorted (contents st xs)]).

Notation "x <~ m ;; k" := (bindM m (fun x => k))
  (at level 61, m at next level, right associativity).

Definition _median_odd (xs : ref) : M S :=
  s <~ new_sorted xs ;;
  n <~ len xs ;;
  getitem s (n / 2).

Definition _median_even (xs : ref) : M S :=
  sorted_xs <~ new_sorted xs ;;
  n <~ len xs ;;
  let hi_midpoint := (n / 2)%Z in
  lo <~ getitem sorted_xs (hi_midpoint - 1) ;;
  hi <~ getitem sorted_xs hi_midpoint ;;
  lift (truediv (fadd lo hi) 2).

Definition median (v : ref) : M S :=
  n <~ len v ;;
  if (n mod 2 =? 0)%Z then _median_even v else _median_odd v.

Definition quantile (xs : ref) (p : S) : M S :=
  n <~ len xs ;;
  p_index <~ lift (to_int (fmul p (of_int n))) ;;
  s <~ new_sorted xs ;;
  getitem s p_index.
End Generic.
End Refs.

(** ** Python's [float]: IEEE binary64 *)

(** [float(z)] for an int [z]: the nearest binary64 value, ties to even
    (Python raises [OverflowError] beyond the float range; the source
    only converts list lengths and the literals 0, 1 and 2). *)
Definition float_of_int (z : Z) : float :=
  SF2Prim (binary_normalize prec emax z 0 false).

(** [int(x)] for a float [x]: truncation toward zero; [ValueError] on a
    NaN and [OverflowError] on an infinity. *)
Definition int_of_float (x : float) : result Z :=
  match Prim2SF x with
  | S754_zero _ => Ok 0%Z
  | S754_infinity _ => Raise OverflowError
  | S754_nan => Raise ValueError
  | S754_finite s m e =>
      let a := match e with
               | Z0 => Zpos m
               | Zpos p => (Zpos m * 2 ^ Zpos p)%Z
               | Zneg p => (Zpos m / 2 ^ Zpos p)%Z
               end in
      Ok (if s then (- a)%Z else a)
  end.

(** The value a float denotes when compared: the two zeros are one
    value, a NaN is none. *)
Definition SFvalue (x : spec_float) : option spec_float :=
  match x with
  | S754_nan => None
  | S754_zero _ => Some (S754_zero false)
  | _ => Some x
  end.

#[global] Instance float_scalar : Scalar float := {
  of_int := float_of_int;
  fadd := PrimFloat.add;
  fsub := PrimFloat.sub;
  fmul := PrimFloat.mul;
  fdiv := PrimFloat.div;
  fsqrt := PrimFloat.sqrt;
  flt := PrimFloat.ltb;
  feq := PrimFloat.eqb;
  to_int := int_of_float
}.

(** The sample of the quantile assertions of [statistics.py]. *)
Definition quantile_list : list float :=
  [1; 2; 3; 4; 5; 6; 7; 8; 9; 10]%float.

(** The objects of the assertions of [n_tuples.py]: [test_v] and
    [test_w], made from the lists [[1, 2, 3]] and [[4, 5, 6]]; and a
    list holding [test_w]. *)
Definition test_heap : @NTuples.heap float :=
  let h0 := NTuples.mkHeap [[1; 2; 3]; [4; 5; 6]]%float [] [[1%nat]] in
  let (test_v, h1) := NTuples.Vector 0%nat h0 in
  let (test_w, h2) := NTuples.Vector 1%nat h1 in
  h2.

(** ** Exact arithmetic: the real numbers *)

(** Truncation toward zero of a real. *)
Definition Rtrunc (x : R) : Z :=
  if Rle_dec 0 x then Int_part x else (- Int_part (- x))%Z.

#[global] Instance R_scalar : Scalar R := {
  of_int := IZR;
  fadd := Rplus;
  fsub := Rminus;
  fmul := Rmult;
  fdiv := Rdiv;
  fsqrt := sqrt;
  flt := fun x y => if Rlt_dec x y then true else false;
  feq := fun x y => if Req_dec_T x y then true else false;
  to_int := fun x => Ok (Rtrunc x)
}.


(** Sums over the reals, written by recursion on the list. *)
Definition Rsum (xs : list R) : R := fold_right Rplus 0%R xs.

Definition sumsq (v : list R) : R := Rsum (map (fun a => (a * a)%R) v).

(** A float that is not below zero: a NaN, a zero of either sign, or
    positive. *)
Definition SFnot_negative (x : spec_float) : Prop :=
  match x with
  | S754_infinity true | S754_finite true _ _ => False
  | _ => True
  end.

(** The record of [shr] after [j] shifts of a mantissa [M]: the
    quotient, a round bit that is set only from the upper half of the
    remainder, and no bit set when nothing was lost. *)
Definition shifted (M j : Z) (mrs : shr_record) : Prop :=
  shr_m mrs = (M / 2 ^ j)%Z /\
  (shr_r mrs = true -> (2 ^ j <= 2 * (M mod 2 ^ j))%Z) /\
  ((M mod 2 ^ j = 0)%Z -> shr_r mrs = false /\ shr_s mrs = false).

(** The real number a float denotes (0 for what is not finite). *)
Definition SF2R (x : spec_float) : R :=
  match x with
  | S754_finite s m e =>
      let v := (IZR (Zpos m) * powerRZ 2 e)%R in if s then (- v)%R else v
  | _ => 0%R
  end.

(** ** The assertions of the source files, on floats *)

Module SourceTests.
Import Algebra Statistics.
Local Open Scope float_scope.

Example test_add : add [1; 2; 3] [4; 5; 6] = Ok [5; 7; 9].
Proof. vm_compute. reflexivity. Qed.

Example test_subtract : subtract [5; 7; 9] [4; 5; 6] = Ok [1; 2; 3].
Proof. vm_compute. reflexivity. Qed.

Example test_vector_sum : vector_sum [[1; 2]; [3; 4]; [5; 6]; [7; 8]] = Ok [16; 20].
Proof. vm_compute. reflexivity. Qed.

Example test_scalar_multiply : scalar_multiply 2 [1; 2; 3] = [2; 4; 6].
Proof. vm_compute. reflexivity. Qed.

Example test_vector_mean : vector_mean [[1; 2]; [3; 4]; [5; 6]] = Ok [3; 4].
Proof. vm_compute. reflexivity. Qed.

Example test_dot : dot [1; 2; 3] [4; 5; 6] = Ok 32.
Proof. vm_compute. reflexivity. Qed.

Example test_sum_of_squares : sum_of_squares [1; 2; 3] = Ok 14.
Proof. vm_compute. reflexivity. Qed.

Example test_magnitude : magnitude [3; 4] = Ok 5.
Proof. vm_compute. reflexivity. Qed.

Example test_distance : distance [2; 3; 4; 2] [1; -2; 1; 3] = Ok 6.
Proof. vm_compute. reflexivity. Qed.

Example test_shape : shape [[1; 2; 3]; [4; 5; 6]] = (2%nat, 3%nat).
Proof. reflexivity. Qed.

Example test_get_row : get_row [[1; 2; 3]; [4; 5; 6]] 0 = Ok [1; 2; 3].
Proof. reflexivity. Qed.

Example test_get_column : get_column [[1; 2; 3]; [4; 5; 6]] 0 = Ok [1; 4].
Proof. reflexivity. Qed.

Example test_identity_matrix :
  identity_matrix 5 = [[1; 0; 0; 0; 0];
                       [0; 1; 0; 0; 0];
                       [0; 0; 1; 0; 0];
                       [0; 0; 0; 1; 0];
                       [0; 0; 0; 0; 1]].
Proof. vm_compute. reflexivity. Qed.

Example test_median_odd : median [1; 10; 2; 9; 5] = Ok 5.
Proof. vm_compute. reflexivity. Qed.

Example test_median_even : median [1; 9; 2; 10] = truediv (2 + 9) 2.
Proof. vm_compute. reflexivity. Qed.

Example test_quantile_10 : quantile quantile_list 0.10 = Ok 2.
Proof. vm_compute. reflexivity. Qed.

Example test_quantile_25 : quantile quantile_list 0.25 = Ok 3.
Proof. vm_compute. reflexivity. Qed.

Example test_quantile_75 : quantile quantile_list 0.75 = Ok 8.
Proof. vm_compute. reflexivity. Qed.

Example test_quantile_90 : quantile quantile_list 0.90 = Ok 10.
Proof. vm_compute. reflexivity. Qed.

Example test_quantile_100 : quantile quantile_list 1.0 = Raise IndexError.
Proof. vm_compute. reflexivity. Qed.

Example test_mode : mode [1; 2; 3; 4; 4; 5; 6; 7; 8; 8; 9; 10] = Ok [4; 8].
Proof. vm_compute. reflexivity. Qed.
End SourceTests.

Import Algebra Statistics.

(** ** Facts about the run-time operations *)

Section RuntimeFacts.
Context {A B : Type}.

Lemma py_index_nonneg (xs : list A) (k : nat) (x : A) :
  nth_error xs k = Some x -> py_index xs (Z.of_nat k) = Ok x.
Proof.
  intros Hk. unfold py_index.
  assert (Hlt : (k < length xs)%nat) by (apply nth_error_Some; congruence).
  destruct (Z.ltb_spec (Z.of_nat k) 0); [lia|].
  destruct (Z.leb_spec 0 (Z.of_nat k)); [|lia].
  destruct (Z.ltb_spec (Z.of_nat k) (Z.of_nat (length xs))); [|lia].
  cbn [andb]. now rewrite Nat2Z.id, Hk.
Qed.

Lemma py_index_from_end (xs : list A) (k : nat) (x : A) :
  nth_error xs k = Some x ->
  py_index xs (Z.of_nat k - Z.of_nat (length xs)) = Ok x.
Proof.
  intros Hk. unfold py_index.
  assert (Hlt : (k < length xs)%nat) by (apply nth_error_Some; congruence).
  destruct (Z.ltb_spec (Z.of_nat k - Z.of_nat (length xs)) 0); [|lia].
  replace (Z.of_nat k - Z.of_nat (length xs) + Z.of_nat (length xs))%Z
    with (Z.of_nat k) by lia.
  destruct (Z.leb_spec 0 (Z.of_nat k)); [|lia].
  destruct (Z.ltb_spec (Z.of_nat k) (Z.of_nat (length xs))); [|lia].
  cbn [andb]. now rewrite Nat2Z.id, Hk.
Qed.

Lemma py_index_out_of_range (xs : list A) (i : Z) :
  (Z.of_nat (length xs) <= i \/ i < - Z.of_nat (length xs))%Z ->
  py_index xs i = Raise IndexError.
Proof.
  intros Hi. unfold py_index.
  destruct (Z.ltb_spec i 0).
  - destruct (Z.leb_spec 0 (i + Z.of_nat (length xs))); [lia|reflexivity].
  - destruct (Z.ltb_spec i (Z.of_nat (length xs))); [lia|].
    now rewrite andb_false_r.
Qed.

(** Indexing either returns an element or raises [IndexError], and it
    raises exactly outside [-len(xs), len(xs)). *)
Lemma py_index_raise_iff (xs : list A) (i : Z) (e : exn) :
  py_index xs i = Raise e <->
  e = IndexError /\ (Z.of_nat (length xs) <= i \/ i < - Z.of_nat (length xs))%Z.
Proof.
  split.
  - intros Hr.
    destruct (Z_lt_le_dec i (- Z.of_nat (length xs))) as [Hlo|Hlo].
    { rewrite py_index_out_of_range in Hr by lia. split; [congruence|lia]. }
    destruct (Z_lt_le_dec i (Z.of_nat (length xs))) as [Hhi|Hhi].
    2:{ rewrite py_index_out_of_range in Hr by lia. split; [congruence|lia]. }
    exfalso.
    destruct (Z_lt_le_dec i 0) as [Hneg|Hpos].
    + assert (Hk : (Z.to_nat (i + Z.of_nat (length xs)) < length xs)%nat) by lia.
      apply nth_error_Some in Hk.
      destruct (nth_error xs (Z.to_nat (i + Z.of_nat (length xs)))) as [x|] eqn:Hx;
        [|congruence].
      apply py_index_from_end in Hx.
      replace (Z.of_nat (Z.to_nat (i + Z.of_nat (length xs))) - Z.of_nat (length xs))%Z
        with i in Hx by lia.
      congruence.
    + assert (Hk : (Z.to_nat i < length xs)%nat) by lia.
      apply nth_error_Some in Hk.
      destruct (nth_error xs (Z.to_nat i)) as [x|] eqn:Hx; [|congruence].
      apply py_index_nonneg in Hx. rewrite Z2Nat.id in Hx by lia. congruence.
  - intros [-> Hi]. now apply py_index_out_of_range.
Qed.

Lemma py_index_in_range (xs : list A) (i : Z) (d : A) :
  (- Z.of_nat (length xs) <= i < Z.of_nat (length xs))%Z ->
  py_index xs i = Ok (nth (position xs i) xs d).
Proof.
  intros Hi. unfold position.
  destruct (Z.ltb_spec i 0) as [Hneg|Hpos].
  - replace i with (Z.of_nat (Z.to_nat (i + Z.of_nat (length xs)))
                    - Z.of_nat (length xs))%Z at 1 by lia.
    apply py_index_from_end, nth_error_nth'. lia.
  - replace i with (Z.of_nat (Z.to_nat i)) at 1 by lia.
    apply py_index_nonneg, nth_error_nth'. lia.
Qed.

Lemma mapM_total (f : A -> result B) (g : A -> B) (xs : list A) :
  (forall x, In x xs -> f x = Ok (g x)) -> mapM f xs = Ok (map g xs).
Proof.
  induction xs as [|x xs IH]; cbn; intros Hf; [reflexivity|].
  rewrite Hf by now left. cbn. rewrite IH; [reflexivity|].
  intros y Hy. apply Hf. now right.
Qed.

Lemma mapM_raise (f : A -> result B) (xs : list A) (e : exn) :
  xs <> [] -> (forall x, In x xs -> f x = Raise e) -> mapM f xs = Raise e.
Proof.
  destruct xs as [|x xs]; [congruence|]. intros _ Hf. cbn.
  now rewrite Hf by now left.
Qed.
End RuntimeFacts.

(** ** algebra.py: errors and lengths *)

Section AlgebraFacts.
Context {S : Type} `{Scalar S}.

Lemma add_equal_length (v w : list S) :
  length v = length w ->
  add v w = Ok (map (fun p => fadd (fst p) (snd p)) (combine v w)).
Proof. intros E. unfold add. now rewrite E, Nat.eqb_refl. Qed.

Lemma subtract_equal_length (v w : list S) :
  length v = length w ->
  subtract v w = Ok (map (fun p => fsub (fst p) (snd p)) (combine v w)).
Proof. intros E. unfold subtract. now rewrite E, Nat.eqb_refl. Qed.

Lemma combine_same_length {X Y : Type} (v : list X) (w : list Y) :
  length v = length w -> length (combine v w) = length v.
Proof. intros E. rewrite length_combine. lia. Qed.

Lemma vector_sum_equal_length (v0 : list S) (vs : list (list S)) :
  (forall v, In v vs -> length v = length v0) ->
  vector_sum (v0 :: vs) =
  Ok (map (fun i => py_sum (column (v0 :: vs) i)) (seq 0 (length v0))).
Proof.
  intros Hlen. unfold vector_sum.
  assert (Hall : forall v, In v (v0 :: vs) -> length v = length v0).
  { intros v [<-|Hv]; auto. }
  replace (forallb (fun v => (length v =? length v0)%nat) (v0 :: vs)) with true.
  2:{ symmetry. apply forallb_forall. intros v Hv. apply Nat.eqb_eq. auto. }
  apply mapM_total. intros i Hi. apply in_seq in Hi.
  unfold column. rewrite mapM_total with (g := fun vec => nth i vec (of_int 0)).
  - reflexivity.
  - intros vec Hvec. apply py_index_nonneg. apply nth_error_nth'. rewrite (Hall vec Hvec). lia.
Qed.

(** C9: the vector-producing operations preserve length.  On
    equal-length [v] and [w], [add] and [subtract] return a vector as
    long as [v]; [scalar_multiply s v] is as long as [v]; on a
    non-empty list of vectors of one length, [vector_sum] returns a
    vector as long as the first. *)
Theorem length_preserved :
  (forall v w : list S, length v = length w ->
     (exists r, add v w = Ok r /\ length r = length v) /\
     (exists r, subtract v w = Ok r /\ length r = length v)) /\
  (forall (s : S) (v : list S), length (scalar_multiply s v) = length v) /\
  (forall (v0 : list S) (vs : list (list S)),
     (forall v, In v vs -> length v = length v0) ->
     exists r, vector_sum (v0 :: vs) = Ok r /\ length r = length v0).
Proof.
  split; [|split].
  - intros v w E. split.
    + eexists. split; [now apply add_equal_length|].
      rewrite length_map. now apply combine_same_length.
    + eexists. split; [now apply subtract_equal_length|].
      rewrite length_map. now apply combine_same_length.
  - intros s v. unfold scalar_multiply. apply length_map.
  - intros v0 vs Hlen. eexists. split; [now apply vector_sum_equal_length|].
    now rewrite length_map, length_seq.
Qed.

(** C2, as the code has it: [get_row A i] raises [IndexError] exactly
    when [i >= row_count] or [i < -row_count], and returns a row for
    every other [i], a negative one counting from the last row; on a
    non-empty matrix with rows of [c] entries [get_column A j] raises
    [IndexError] exactly when [j >= c] or [j < -c]; on the empty
    matrix [get_column] returns the empty vector for every [j]; and
    [get_row] with index 99 on a 2-row matrix raises [IndexError]. *)
Theorem get_row_get_column_index_errors :
  (forall (A : list (list S)) (i : Z),
     (get_row A i = Raise IndexError <->
      (Z.of_nat (length A) <= i \/ i < - Z.of_nat (length A))%Z) /\
     ((- Z.of_nat (length A) <= i < Z.of_nat (length A))%Z ->
      get_row A i = Ok (nth (position A i) A []))) /\
  (forall (A : list (list S)) (c : nat) (j : Z),
     A <> [] -> (forall A_i, In A_i A -> length A_i = c) ->
     (get_column A j = Raise IndexError <->
      (Z.of_nat c <= j \/ j < - Z.of_nat c)%Z) /\
     ((- Z.of_nat c <= j < Z.of_nat c)%Z ->
      get_column A j = Ok (map (fun A_i => nth (position A_i j) A_i (of_int 0)) A))) /\
  (forall j : Z, get_column (@nil (list S)) j = Ok []) /\
  (forall r0 r1 : list S, get_row [r0; r1] 99 = Raise IndexError).
Proof.
  split; [|split; [|split]].
  - intros A i. split.
    + unfold get_row. rewrite py_index_raise_iff. intuition.
    + intros Hi. now apply py_index_in_range.
  - intros A c j Hne Hrect.
    assert (Hin : (- Z.of_nat c <= j < Z.of_nat c)%Z ->
                  get_column A j =
                  Ok (map (fun A_i => nth (position A_i j) A_i (of_int 0)) A)).
    { intros Hj. unfold get_column. apply mapM_total. intros A_i HA.
      apply py_index_in_range. rewrite (Hrect A_i HA). lia. }
    split; [split|exact Hin].
    + intros Hr.
      destruct (Z_lt_le_dec j (- Z.of_nat c)); [lia|].
      destruct (Z_lt_le_dec j (Z.of_nat c)); [|lia].
      rewrite Hin in Hr by lia. discriminate.
    + intros Hj. unfold get_column. apply mapM_raise; [exact Hne|].
      intros A_i HA. apply py_index_out_of_range. rewrite (Hrect A_i HA). lia.
  - reflexivity.
  - reflexivity.
Qed.
End AlgebraFacts.

(** ** [sorted] *)

Section SortedFacts.
Context {S : Type} `{Scalar S}.

Lemma insert_Permutation (x : S) (l : list S) : Permutation (insert x l) (x :: l).
Proof.
  induction l as [|y l IH]; cbn; [reflexivity|].
  destruct (flt x y); [reflexivity|].
  rewrite IH. apply perm_swap.
Qed.

Lemma fold_insert_Permutation (xs acc : list S) :
  Permutation (fold_left (fun a x => insert x a) xs acc) (acc ++ xs).
Proof.
  revert acc. induction xs as [|x xs IH]; intros acc; cbn.
  - now rewrite app_nil_r.
  - rewrite IH, insert_Permutation. apply Permutation_middle.
Qed.

(** [sorted(xs)] holds the elements of [xs], each as often. *)
Lemma sorted_Permutation (xs : list S) : Permutation (sorted xs) xs.
Proof. unfold sorted. now rewrite fold_insert_Permutation. Qed.

Lemma sorted_length (xs : list S) : length (sorted xs) = length xs.
Proof. apply Permutation_length, sorted_Permutation. Qed.

Section Ordered.
Hypothesis flt_asym : forall a b : S, flt a b = true -> flt b a = false.

Lemma insert_HdRel (y x : S) (l : list S) :
  HdRel in_order y l -> in_order y x -> HdRel in_order y (insert x l).
Proof.
  intros Hl Hx. destruct l as [|z l]; cbn.
  - now constructor.
  - destruct (flt x z); constructor; [assumption|now inversion Hl].
Qed.

Lemma insert_Sorted (x : S) (l : list S) :
  Sorted in_order l -> Sorted in_order (insert x l).
Proof.
  induction l as [|y l IH]; cbn; intros Hs.
  - repeat constructor.
  - destruct (flt x y) eqn:Exy.
    + constructor; [assumption|]. constructor. now apply flt_asym.
    + inversion Hs; subst. constructor; [now apply IH|].
      now apply insert_HdRel.
Qed.

Lemma fold_insert_Sorted (xs acc : list S) :
  Sorted in_order acc -> Sorted in_order (fold_left (fun a x => insert x a) xs acc).
Proof.
  revert acc. induction xs as [|x xs IH]; intros acc Hacc; cbn; [assumption|].
  now apply IH, insert_Sorted.
Qed.

(** No element of [sorted(xs)] is followed by a smaller one. *)
Lemma sorted_Sorted (xs : list S) : Sorted in_order (sorted xs).
Proof. apply fold_insert_Sorted. constructor. Qed.
End Ordered.
End SortedFacts.

(** The order of floats is asymmetric, NaNs included: a comparison with
    a NaN is false. *)
Lemma SFcompare_Lt_Gt (x y : spec_float) :
  SFcompare x y = Some Lt -> SFcompare y x = Some Gt.
Proof.
  destruct x as [sx|sx| |sx mx ex], y as [sy|sy| |sy my ey]; cbn;
    try discriminate; try (destruct sx; discriminate);
    try (destruct sy; discriminate);
    try (destruct sx, sy; (discriminate || reflexivity)).
  assert (Hm : Pos.compare_cont Eq my mx = CompOpp (Pos.compare_cont Eq mx my))
    by (symmetry; apply (Pos.compare_cont_antisym mx my Eq)).
  destruct sx, sy; try discriminate; try reflexivity;
    rewrite (Z.compare_antisym ex ey), Hm;
    destruct (Z.compare ex ey); cbn; try discriminate; try reflexivity;
    destruct (Pos.compare_cont Eq mx my); cbn; (discriminate || reflexivity).
Qed.

Lemma float_lt_asym (a b : float) : flt a b = true -> flt b a = false.
Proof.
  cbn. rewrite !ltb_spec. unfold SFltb. intros Hab.
  destruct (SFcompare (Prim2SF a) (Prim2SF b)) as [[| |]|] eqn:E; try discriminate.
  now rewrite (SFcompare_Lt_Gt _ _ E).
Qed.

(** ** statistics.py: [mean] and [median] *)

Section StatisticsFacts.
Context {S : Type} `{Scalar S}.

Lemma median_odd_count (xs : list S) :
  Nat.Odd (length xs) ->
  exists m, nth_error (sorted xs) (length xs / 2) = Some m /\ median xs = Ok m.
Proof.
  intros [k Hk].
  assert (Hlt : (length xs / 2 < length (sorted xs))%nat).
  { rewrite sorted_length. apply Nat.Div0.div_lt_upper_bound. lia. }
  apply nth_error_Some in Hlt.
  destruct (nth_error (sorted xs) (length xs / 2)) as [m|] eqn:Hm; [|congruence].
  exists m. split; [reflexivity|].
  unfold median, _median_odd.
  destruct (Z.eqb_spec (Z.of_nat (length xs) mod 2) 0) as [E|_].
  { rewrite Hk, Nat2Z.inj_add, Nat2Z.inj_mul, Z.add_comm, Z.mul_comm, Z.mod_add in E
      by lia. discriminate. }
  replace (Z.of_nat (length xs) / 2)%Z with (Z.of_nat (length xs / 2)).
  2:{ rewrite Nat2Z.inj_div. reflexivity. }
  now apply py_index_nonneg.
Qed.

Lemma median_even_count (xs : list S) :
  xs <> [] -> Nat.Even (length xs) ->
  exists lo hi,
    nth_error (sorted xs) (length xs / 2 - 1) = Some lo /\
    nth_error (sorted xs) (length xs / 2) = Some hi /\
    median xs = Ok (fdiv (fadd lo hi) (of_int 2)).
Proof.
  intros Hne [k Hk].
  assert (Hpos : (0 < k)%nat).
  { destruct xs; [congruence|]. cbn [length] in Hk. lia. }
  assert (Hhalf : (length xs / 2 = k)%nat).
  { rewrite Hk, Nat.mul_comm. apply Nat.div_mul. lia. }
  assert (Hhi : (length xs / 2 < length (sorted xs))%nat).
  { rewrite sorted_length. lia. }
  assert (Hlo : (length xs / 2 - 1 < length (sorted xs))%nat) by lia.
  apply nth_error_Some in Hhi, Hlo.
  destruct (nth_error (sorted xs) (length xs / 2)) as [hi|] eqn:Ehi; [|congruence].
  destruct (nth_error (sorted xs) (length xs / 2 - 1)) as [lo|] eqn:Elo; [|congruence].
  exists lo, hi. split; [reflexivity|]. split; [reflexivity|].
  unfold median, _median_even.
  destruct (Z.eqb_spec (Z.of_nat (length xs) mod 2) 0) as [_|E].
  2:{ rewrite Hk in E. rewrite Nat2Z.inj_mul, Z.mul_comm, Z.mod_mul in E; lia. }
  replace (Z.of_nat (length xs) / 2 - 1)%Z with (Z.of_nat (length xs / 2 - 1)).
  2:{ rewrite Nat2Z.inj_sub, Nat2Z.inj_div by lia. reflexivity. }
  replace (Z.of_nat (length xs) / 2)%Z with (Z.of_nat (length xs / 2)).
  2:{ rewrite Nat2Z.inj_div. reflexivity. }
  rewrite (py_index_nonneg _ _ Elo), (py_index_nonneg _ _ Ehi).
  reflexivity.
Qed.

(** Over list objects: [median] computes what the function on values
    computes and leaves every list that existed before the call as it
    was; the only change to the store is the list [sorted] allocates. *)
Lemma median_store (st : Refs.store) (v : Refs.ref) :
  (v < length st)%nat ->
  Refs.median v st = (median (Refs.contents st v), st ++ [sorted (Refs.contents st v)]).
Proof.
  intros Hv.
  assert (Hold : Refs.contents (st ++ [sorted (Refs.contents st v)]) v
                 = Refs.contents st v).
  { unfold Refs.contents. now rewrite app_nth1. }
  assert (Hnew : Refs.contents (st ++ [sorted (Refs.contents st v)]) (length st)
                 = sorted (Refs.contents st v)).
  { unfold Refs.contents. rewrite app_nth2, Nat.sub_diag by lia. reflexivity. }
  unfold Refs.median, median, Refs.bindM, Refs.len at 1.
  destruct (Z.of_nat (length (Refs.contents st v)) mod 2 =? 0)%Z.
  - unfold Refs._median_even, _median_even, Refs.bindM, Refs.new_sorted,
      Refs.len, Refs.getitem, Refs.lift.
    rewrite Hold, Hnew.
    destruct (py_index (sorted (Refs.contents st v))
                (Z.of_nat (length (Refs.contents st v)) / 2 - 1)); cbn; [|reflexivity].
    destruct (py_index (sorted (Refs.contents st v))
                (Z.of_nat (length (Refs.contents st v)) / 2)); cbn; reflexivity.
  - unfold Refs._median_odd, _median_odd, Refs.bindM, Refs.new_sorted,
      Refs.len, Refs.getitem.
    rewrite Hold, Hnew. reflexivity.
Qed.

(** [quantile] over list objects, likewise. *)
Lemma quantile_store (st : Refs.store) (xs : Refs.ref) (p : S) :
  (xs < length st)%nat ->
  fst (Refs.quantile xs p st) = quantile (Refs.contents st xs) p /\
  forall r, (r < length st)%nat ->
            Refs.contents (snd (Refs.quantile xs p st)) r = Refs.contents st r.
Proof.
  intros Hxs.
  unfold Refs.quantile, quantile, Refs.bindM, Refs.len, Refs.lift.
  destruct (to_int (fmul p (of_int (Z.of_nat (length (Refs.contents st xs))))))
    as [k|e]; cbn [bind fst snd]; [|split; reflexivity].
  unfold Refs.new_sorted, Refs.getitem. cbn [fst snd]. split.
  - unfold Refs.contents at 1. rewrite app_nth2, Nat.sub_diag by lia. reflexivity.
  - intros r Hr. unfold Refs.contents. now rewrite app_nth1.
Qed.

(** Whatever the numbers: [quantile] indexes the sorted copy at
    [int(p * len(xs))]. *)
Lemma quantile_at_index (xs : list S) (p : S) (k : Z) :
  to_int (fmul p (of_int (Z.of_nat (length xs)))) = Ok k ->
  ((0 <= k < Z.of_nat (length xs))%Z ->
   exists q, nth_error (sorted xs) (Z.to_nat k) = Some q /\ quantile xs p = Ok q) /\
  (k = Z.of_nat (length xs) -> quantile xs p = Raise IndexError).
Proof.
  intros Hk. unfold quantile. rewrite Hk. cbn [bind]. split.
  - intros Hin.
    assert (Hlt : (Z.to_nat k < length (sorted xs))%nat) by (rewrite sorted_length; lia).
    apply nth_error_Some in Hlt.
    destruct (nth_error (sorted xs) (Z.to_nat k)) as [q|] eqn:Hq; [|congruence].
    exists q. split; [reflexivity|].
    replace k with (Z.of_nat (Z.to_nat k)) by lia. now apply py_index_nonneg.
  - intros ->. apply py_index_out_of_range. rewrite sorted_length. lia.
Qed.
End StatisticsFacts.

(** ** Exact arithmetic *)

Section RealFacts.
Local Open Scope R_scope.

Lemma fold_left_Rplus (xs : list R) (a : R) : fold_left Rplus xs a = a + Rsum xs.
Proof.
  revert a. induction xs as [|x xs IH]; intros a; cbn.
  - lra.
  - rewrite IH. unfold Rsum. lra.
Qed.

Lemma py_sum_R (xs : list R) : py_sum xs = Rsum xs.
Proof. unfold py_sum. cbn. rewrite fold_left_Rplus. lra. Qed.

Lemma flt_R_true (a b : R) : flt a b = true <-> a < b.
Proof. cbn. destruct (Rlt_dec a b); split; (congruence || tauto). Qed.

Lemma in_order_R (a b : R) : in_order a b <-> a <= b.
Proof.
  unfold in_order. cbn. destruct (Rlt_dec b a); split; intros; (lra || congruence).
Qed.

Lemma R_lt_asym (a b : R) : flt a b = true -> flt b a = false.
Proof.
  rewrite flt_R_true. intros Hab. cbn. destruct (Rlt_dec b a); [lra|reflexivity].
Qed.

(** Over the reals [sorted(xs)] is [xs] rearranged in non-decreasing
    order. *)
Lemma sorted_R (xs : list R) :
  Permutation (sorted xs) xs /\ StronglySorted Rle (sorted xs).
Proof.
  split; [apply sorted_Permutation|].
  apply Sorted_StronglySorted.
  - intros a b c. apply Rle_trans.
  - generalize (sorted_Sorted R_lt_asym xs).
    induction 1 as [|a l Hs IH Hd]; constructor; [assumption|].
    destruct Hd; constructor. now apply in_order_R.
Qed.

Lemma Rtrunc_nonneg (x : R) : 0 <= x -> Rtrunc x = Int_part x.
Proof. intros Hx. unfold Rtrunc. destruct (Rle_dec 0 x); [reflexivity|lra]. Qed.

Lemma Int_part_bounds (x : R) (n : nat) :
  0 <= x < INR n -> (0 <= Int_part x < Z.of_nat n)%Z.
Proof.
  intros [Hlo Hhi]. destruct (base_Int_part x) as [Hle Hgt].
  split.
  - apply Z.lt_succ_r, lt_IZR. rewrite succ_IZR. lra.
  - apply lt_IZR. rewrite <- INR_IZR_INZ. lra.
Qed.

Lemma quantile_R (xs : list R) (p : R) :
  xs <> [] ->
  (0 <= p < 1 ->
   exists (k : nat) (s : list R) (q : R),
     INR k <= p * INR (length xs) < INR k + 1 /\
     (k < length xs)%nat /\
     Permutation s xs /\ StronglySorted Rle s /\
     nth_error s k = Some q /\
     quantile xs p = Ok q) /\
  (to_int (fmul 1 (of_int (Z.of_nat (length xs)))) = Ok (Z.of_nat (length xs)) /\
   quantile xs 1 = Raise IndexError).
Proof.
  intros Hne.
  assert (Hn : 0 < INR (length xs)).
  { apply lt_0_INR. destruct xs; [congruence|cbn; lia]. }
  split.
  - intros [Hp0 Hp1].
    set (x := p * INR (length xs)).
    assert (Hx : 0 <= x < INR (length xs)) by (unfold x; split; nra).
    pose proof (Int_part_bounds _ Hx) as Hk.
    destruct (base_Int_part x) as [Hle Hgt].
    assert (Hidx : to_int (fmul p (of_int (Z.of_nat (length xs)))) = Ok (Int_part x)).
    { cbn [to_int fmul of_int R_scalar].
      rewrite <- INR_IZR_INZ. fold x. now rewrite Rtrunc_nonneg by lra. }
    destruct (proj1 (quantile_at_index xs p Hidx) Hk) as (q & Hq & Hquant).
    exists (Z.to_nat (Int_part x)), (sorted xs), q.
    destruct (sorted_R xs) as [Hperm Hsorted].
    assert (Hkz : INR (Z.to_nat (Int_part x)) = IZR (Int_part x)).
    { rewrite INR_IZR_INZ. f_equal. lia. }
    repeat split; try assumption.
    + rewrite Hkz. exact Hle.
    + rewrite Hkz. fold x. lra.
    + lia.
  - assert (Hidx : to_int (fmul 1 (of_int (Z.of_nat (length xs))))
                   = Ok (Z.of_nat (length xs))).
    { cbn [to_int fmul of_int R_scalar].
      rewrite <- INR_IZR_INZ, Rmult_1_l, Rtrunc_nonneg by lra.
      now rewrite Int_part_INR. }
    split; [exact Hidx|].
    now apply (proj2 (quantile_at_index xs 1 Hidx)).
Qed.

Lemma sumsq_cons (a : R) (v : list R) : sumsq (a :: v) = a * a + sumsq v.
Proof. reflexivity. Qed.

Lemma sumsq_nonneg (v : list R) : 0 <= sumsq v.
Proof.
  induction v as [|a v IH]; [cbn; lra|]. rewrite sumsq_cons. nra.
Qed.

Lemma sumsq_zero (v : list R) : sumsq v = 0 <-> Forall (fun a => a = 0) v.
Proof.
  induction v as [|a v IH].
  - split; [constructor|reflexivity].
  - rewrite sumsq_cons. pose proof (sumsq_nonneg v). split.
    + intros E. constructor; [nra|]. apply IH. nra.
    + intros Hall. inversion Hall; subst. apply IH in H3. nra.
Qed.

Lemma squares_of_pairs (v : list R) :
  map (fun p => fmul (fst p) (snd p)) (combine v v) = map (fun a => a * a) v.
Proof. induction v as [|a v IH]; cbn; [reflexivity|]. now rewrite <- IH. Qed.

Lemma sum_of_squares_R (v : list R) : sum_of_squares v = Ok (sumsq v).
Proof.
  unfold sum_of_squares, dot. rewrite Nat.eqb_refl.
  now rewrite py_sum_R, squares_of_pairs.
Qed.

Lemma magnitude_R (v : list R) : magnitude v = Ok (sqrt (sumsq v)).
Proof.
  unfold magnitude. rewrite sum_of_squares_R. cbn [bind]. unfold math_sqrt.
  cbn [flt fsqrt of_int R_scalar].
  destruct (Rlt_dec (sumsq v) 0) as [Hneg|_]; [|reflexivity].
  pose proof (sumsq_nonneg v). lra.
Qed.

Lemma distance_R (v w : list R) :
  length v = length w ->
  distance v w = Ok (sqrt (sumsq (map (fun p => fst p - snd p) (combine v w)))).
Proof.
  intros E. unfold distance. rewrite subtract_equal_length by assumption.
  cbn [bind]. apply magnitude_R.
Qed.

Lemma cauchy_schwarz_2 (a b p q u v : R) :
  0 <= u -> 0 <= v -> u * u = a * a + p * p -> v * v = b * b + q * q ->
  a * b + p * q <= u * v.
Proof.
  intros Hu Hv Eu Ev.
  destruct (Rle_dec (a * b + p * q) (u * v)) as [Hle|Hgt]; [exact Hle|].
  exfalso.
  assert (Hsq : (a * b + p * q) * (a * b + p * q) <= (u * v) * (u * v)).
  { replace (u * v * (u * v)) with ((u * u) * (v * v)) by ring.
    rewrite Eu, Ev.
    assert (Hid : (a * a + p * p) * (b * b + q * q)
                  - (a * b + p * q) * (a * b + p * q)
                  = (a * q - b * p) * (a * q - b * p)) by ring.
    pose proof (Rle_0_sqr (a * q - b * p)) as Hpos. unfold Rsqr in Hpos. lra. }
  assert (Huv : 0 <= u * v) by nra.
  nra.
Qed.

Lemma sqrt_le_of_square (x y : R) : 0 <= y -> x <= y * y -> sqrt x <= y.
Proof.
  intros Hy Hxy. rewrite <- (sqrt_square y Hy). now apply sqrt_le_1_alt.
Qed.

(** One more coordinate: the triangle inequality in the plane. *)
Lemma triangle_step (a b A B C : R) :
  0 <= A -> 0 <= B -> 0 <= C ->
  sqrt A <= sqrt B + sqrt C ->
  sqrt ((a + b) * (a + b) + A) <= sqrt (a * a + B) + sqrt (b * b + C).
Proof.
  intros HA HB HC Hn.
  pose proof (sqrt_pos A) as HnA. pose proof (sqrt_pos B) as HnB.
  pose proof (sqrt_pos C) as HnC.
  pose proof (sqrt_sqrt A HA) as EA. pose proof (sqrt_sqrt B HB) as EB.
  pose proof (sqrt_sqrt C HC) as EC.
  set (N := sqrt A) in *. set (P := sqrt B) in *. set (Q := sqrt C) in *.
  assert (HU : 0 <= a * a + B) by nra. assert (HV : 0 <= b * b + C) by nra.
  pose proof (sqrt_pos (a * a + B)) as HnU. pose proof (sqrt_pos (b * b + C)) as HnV.
  pose proof (sqrt_sqrt _ HU) as EU. pose proof (sqrt_sqrt _ HV) as EV.
  set (U := sqrt (a * a + B)) in *. set (V := sqrt (b * b + C)) in *.
  assert (Hcs : a * b + P * Q <= U * V).
  { apply cauchy_schwarz_2; try assumption; lra. }
  apply sqrt_le_of_square; [lra|].
  assert (HNN : N * N <= (P + Q) * (P + Q)) by nra.
  nra.
Qed.

Lemma sumsq_triangle (v w u : list R) :
  length v = length w -> length u = length v ->
  sqrt (sumsq (map (fun p => fst p - snd p) (combine v w))) <=
  sqrt (sumsq (map (fun p => fst p - snd p) (combine v u))) +
  sqrt (sumsq (map (fun p => fst p - snd p) (combine u w))).
Proof.
  revert w u. induction v as [|a v IH]; intros [|b w] [|c u]; cbn [length];
    try discriminate; intros Hw Hu.
  - cbn. rewrite sqrt_0. lra.
  - cbn [combine map fst snd]. rewrite !sumsq_cons.
    replace (a - b) with ((a - c) + (c - b)) by ring.
    apply triangle_step; try apply sumsq_nonneg.
    apply IH; lia.
Qed.

(** C5, in exact arithmetic: for real vectors [v], [w], [u] of one
    length the three distances are defined and
    [distance v w <= distance v u + distance u w]. *)
Theorem distance_triangle (v w u : list R) :
  length v = length w -> length u = length v ->
  exists dvw dvu duw,
    distance v w = Ok dvw /\ distance v u = Ok dvu /\ distance u w = Ok duw /\
    dvw <= dvu + duw.
Proof.
  intros Hw Hu.
  exists (sqrt (sumsq (map (fun p => fst p - snd p) (combine v w)))),
         (sqrt (sumsq (map (fun p => fst p - snd p) (combine v u)))),
         (sqrt (sumsq (map (fun p => fst p - snd p) (combine u w)))).
  repeat split.
  - now apply distance_R.
  - apply distance_R. congruence.
  - apply distance_R. congruence.
  - now apply sumsq_triangle.
Qed.

Lemma add_then_subtract (v w : list R) :
  length v = length w ->
  map (fun p => fst p - snd p)
      (combine (map (fun p => fst p + snd p) (combine v w)) w) = v.
Proof.
  revert w. induction v as [|a v IH]; intros [|b w]; cbn [length]; try discriminate;
    intros E; [reflexivity|].
  cbn [combine map fst snd]. f_equal; [ring|]. apply IH. lia.
Qed.

(** C6, in exact arithmetic: for real vectors [v] and [w] of one length
    [add v w] is defined and subtracting [w] from it gives back [v]. *)
Theorem subtract_add_round_trip (v w : list R) :
  length v = length w ->
  exists s, add v w = Ok s /\ subtract s w = Ok v.
Proof.
  intros E. eexists. split; [now apply add_equal_length|].
  rewrite subtract_equal_length.
  - exact (f_equal Ok (add_then_subtract v w E)).
  - now rewrite length_map, combine_same_length.
Qed.

(** Over the reals [magnitude v] is defined and non-negative, and it is
    0 exactly when every element of [v] is 0. *)
Lemma magnitude_R_nonneg_zero (v : list R) :
  exists m, magnitude v = Ok m /\ 0 <= m /\ (m = 0 <-> Forall (fun a => a = 0) v).
Proof.
  exists (sqrt (sumsq v)). split; [apply magnitude_R|]. split; [apply sqrt_pos|].
  rewrite <- sumsq_zero. split.
  - intros E. apply sqrt_eq_0; [apply sumsq_nonneg|exact E].
  - intros E. rewrite E. apply sqrt_0.
Qed.

Lemma mean_R (xs : list R) :
  xs <> [] -> mean xs = Ok (Rsum xs / INR (length xs)).
Proof.
  intros Hne. unfold mean, truediv.
  destruct (Z.eqb_spec (Z.of_nat (length xs)) 0) as [E|_].
  { destruct xs; [congruence|cbn [length] in E; lia]. }
  cbn [fdiv of_int R_scalar]. now rewrite py_sum_R, <- INR_IZR_INZ.
Qed.
End RealFacts.

(** ** statistics.py: [mode] *)

Section ModeFacts.
Context {S : Type} `{Scalar S}.

Lemma fold_left_max_ge (ns : list nat) (n : nat) :
  (n <= fold_left Nat.max ns n)%nat /\
  (forall m, In m ns -> (m <= fold_left Nat.max ns n)%nat).
Proof.
  revert n. induction ns as [|a ns IH]; intros n; cbn.
  - split; [lia|tauto].
  - destruct (IH (Nat.max n a)) as [Hn Hall]. split; [lia|].
    intros m [<-|Hm]; [lia|auto].
Qed.

Lemma fold_left_max_In (ns : list nat) (n : nat) :
  In (fold_left Nat.max ns n) (n :: ns).
Proof.
  revert n. induction ns as [|a ns IH]; intros n; cbn; [now left|].
  destruct (IH (Nat.max n a)) as [E|Hin]; [|now right; right].
  rewrite <- E. destruct (Nat.max_spec n a) as [[_ ->]|[_ ->]]; auto.
Qed.

(** [max] of a non-empty list of counts is one of them and bounds them. *)
Lemma py_max_spec (ns : list nat) :
  ns <> [] ->
  exists M, py_max ns = Ok M /\ In M ns /\ forall m, In m ns -> (m <= M)%nat.
Proof.
  destruct ns as [|n ns]; [congruence|]. intros _.
  exists (fold_left Nat.max ns n). split; [reflexivity|].
  split; [apply fold_left_max_In|].
  destruct (fold_left_max_ge ns n) as [Hn Hall].
  intros m [<-|Hm]; auto.
Qed.

Lemma Counter_snoc (xs : list S) (x : S) :
  Counter (xs ++ [x]) = counter_incr x (Counter xs).
Proof. unfold Counter. now rewrite fold_left_app. Qed.

Lemma occurrences_snoc (k : S) (xs : list S) (x : S) :
  occurrences k (xs ++ [x]) = (occurrences k xs + if feq k x then 1 else 0)%nat.
Proof.
  unfold occurrences. rewrite filter_app, length_app. cbn.
  destruct (feq k x); reflexivity.
Qed.

Lemma counter_get_bound (counts : list (S * nat)) (k : S) :
  counter_get counts k = 0%nat \/ In (counter_get counts k) (map snd counts).
Proof.
  induction counts as [|[k' c] rest IH]; cbn; [now left|].
  destruct (feq k' k); [right; now left|]. destruct IH; auto.
Qed.

Lemma counter_incr_keys (x : S) (counts : list (S * nat)) (k : S) :
  In k (map fst (counter_incr x counts)) -> In k (map fst counts) \/ k = x.
Proof.
  induction counts as [|[k' c] rest IH]; cbn.
  - intros [<-|[]]. now right.
  - destruct (feq k' x); cbn; [tauto|]. intros [<-|Hk]; [now left; left|].
    destruct (IH Hk); auto.
Qed.

Lemma counter_incr_positive (x : S) (counts : list (S * nat)) :
  Forall (fun kc => (1 <= snd kc)%nat) counts ->
  Forall (fun kc => (1 <= snd kc)%nat) (counter_incr x counts).
Proof.
  induction 1 as [|[k' c] rest Hc Hrest IH]; cbn.
  - repeat constructor.
  - destruct (feq k' x); constructor; cbn in *; auto; lia.
Qed.

(** From here on [==] is an equivalence on the values at hand. *)
Variable D : S -> Prop.
Hypothesis feq_refl : forall a, D a -> feq a a = true.
Hypothesis feq_sym : forall a b, D a -> D b -> feq a b = true -> feq b a = true.
Hypothesis feq_trans :
  forall a b c, D a -> D b -> D c -> feq a b = true -> feq b c = true -> feq a c = true.

Lemma feq_comm (a b : S) : D a -> D b -> feq a b = feq b a.
Proof.
  intros Ha Hb. destruct (feq a b) eqn:Eab, (feq b a) eqn:Eba; try reflexivity.
  - apply feq_sym in Eab; congruence.
  - apply feq_sym in Eba; congruence.
Qed.

Lemma counter_get_incr (x k : S) (counts : list (S * nat)) :
  D x -> D k -> Forall D (map fst counts) ->
  counter_get (counter_incr x counts) k =
  (counter_get counts k + if feq k x then 1 else 0)%nat.
Proof.
  intros Hx Hk. induction counts as [|[k' c] rest IH]; cbn; intros Hkeys.
  - rewrite (feq_comm Hx Hk). destruct (feq k x); reflexivity.
  - inversion Hkeys as [|? ? Hk' Hrest]; subst.
    destruct (feq k' x) eqn:Ex; cbn.
    + destruct (feq k' k) eqn:Ek.
      * assert (feq k x = true) as ->; [|lia].
        apply feq_trans with k'; auto.
      * assert (feq k x = false) as ->; [|lia].
        destruct (feq k x) eqn:Ekx; [|reflexivity].
        rewrite <- Ek. symmetry. apply feq_trans with x; auto.
    + destruct (feq k' k) eqn:Ek.
      * assert (feq k x = false) as ->; [|lia].
        destruct (feq k x) eqn:Ekx; [|reflexivity].
        rewrite <- Ex. symmetry. apply feq_trans with k; auto.
      * now apply IH.
Qed.

Lemma counter_incr_distinct (x : S) (counts : list (S * nat)) :
  distinct_keys counts -> distinct_keys (counter_incr x counts).
Proof.
  unfold distinct_keys.
  induction counts as [|[k' c] rest IH]; cbn; intros Hd.
  - repeat constructor.
  - inversion Hd as [|? ? Hk' Hrest]; subst.
    destruct (feq k' x) eqn:Ex; cbn; [now constructor|].
    constructor; [|now apply IH].
    apply Forall_forall. intros k Hk.
    destruct (counter_incr_keys _ _ _ Hk) as [Hin| ->]; [|exact Ex].
    rewrite Forall_forall in Hk'. now apply Hk'.
Qed.

Lemma counter_get_entry (counts : list (S * nat)) (k : S) (c : nat) :
  distinct_keys counts -> Forall D (map fst counts) ->
  In (k, c) counts -> counter_get counts k = c.
Proof.
  unfold distinct_keys.
  induction counts as [|[k' c'] rest IH]; cbn; intros Hd Hkeys; [tauto|].
  inversion Hd as [|? ? Hk' Hrest]; subst.
  inversion Hkeys as [|? ? HDk' HDrest]; subst.
  intros [E|Hin].
  - inversion E; subst. now rewrite feq_refl.
  - rewrite Forall_forall in Hk'.
    rewrite (Hk' k) by (apply in_map_iff; now exists (k, c)).
    now apply IH.
Qed.

(** What [Counter(xs)] holds: its keys are elements of [xs], no two of
    them [==], every count is at least 1, and [counts[k]] is the number
    of elements [==] to [k]. *)
Lemma Counter_spec (xs : list S) :
  Forall D xs ->
  (forall k, In k (map fst (Counter xs)) -> In k xs) /\
  distinct_keys (Counter xs) /\
  Forall (fun kc => (1 <= snd kc)%nat) (Counter xs) /\
  (forall k, D k -> counter_get (Counter xs) k = occurrences k xs).
Proof.
  induction xs as [|x xs IH] using rev_ind; intros HD.
  - cbn. repeat split; try constructor; tauto.
  - apply Forall_app in HD. destruct HD as [HDxs HDx].
    inversion HDx as [|? ? Hx _]; subst.
    destruct (IH HDxs) as (Hkeys & Hdist & Hpos & Hget).
    rewrite Counter_snoc. repeat split.
    + intros k Hk. apply in_or_app.
      destruct (counter_incr_keys _ _ _ Hk) as [Hin| ->]; [left; auto|right; now left].
    + now apply counter_incr_distinct.
    + now apply counter_incr_positive.
    + intros k Hk. rewrite counter_get_incr, occurrences_snoc, Hget; auto.
      apply Forall_forall. intros k' Hk'. rewrite Forall_forall in HDxs. auto.
Qed.

Lemma distinct_filter (counts : list (S * nat)) (f : S * nat -> bool) :
  distinct_keys counts ->
  ForallOrdPairs (fun a b => feq a b = false) (map fst (filter f counts)).
Proof.
  unfold distinct_keys.
  induction counts as [|kc rest IH]; cbn; intros Hd; [constructor|].
  inversion Hd as [|? ? Hk Hrest]; subst.
  destruct (f kc); cbn; [|now apply IH].
  constructor; [|now apply IH].
  apply Forall_forall. intros k Hin. rewrite Forall_forall in Hk. apply Hk.
  apply in_map_iff in Hin. destruct Hin as (kc' & <- & Hkc').
  apply filter_In in Hkc'. apply in_map. tauto.
Qed.

Lemma mode_on_equivalence (xs : list S) :
  xs <> [] -> Forall D xs ->
  exists ms,
    mode xs = Ok ms /\ ms <> [] /\
    ForallOrdPairs (fun a b => feq a b = false) ms /\
    forall m, In m ms ->
      In m xs /\ forall y, In y xs -> (occurrences y xs <= occurrences m xs)%nat.
Proof.
  intros Hne HD.
  destruct (Counter_spec HD) as (Hkeys & Hdist & Hpos & Hget).
  assert (HDkeys : Forall D (map fst (Counter xs))).
  { apply Forall_forall. intros k Hk. rewrite Forall_forall in HD. auto. }
  assert (Hcne : map snd (Counter xs) <> []).
  { destruct xs as [|x0 xs']; [congruence|].
    assert (Hx0 : D x0) by now inversion HD.
    pose proof (Hget x0 Hx0) as Hg.
    unfold occurrences in Hg. cbn [filter] in Hg.
    rewrite (feq_refl Hx0) in Hg. cbn [length] in Hg.
    destruct (Counter (x0 :: xs')); [cbn in Hg; lia|discriminate]. }
  destruct (py_max_spec Hcne) as (M & HM & HMin & HMax).
  unfold mode. rewrite HM. cbn [bind]. eexists. split; [reflexivity|].
  split; [|split].
  - apply in_map_iff in HMin. destruct HMin as ([k c] & Hc & Hin). cbn in Hc. subst c.
    intros E.
    assert (Hk : In k (map fst (filter (fun kc => (snd kc =? M)%nat) (Counter xs)))).
    { apply in_map_iff. exists (k, M). split; [reflexivity|].
      apply filter_In. split; [assumption|]. apply Nat.eqb_refl. }
    rewrite E in Hk. destruct Hk.
  - now apply distinct_filter.
  - intros m Hm.
    apply in_map_iff in Hm. destruct Hm as ([k c] & Hk & Hin). cbn in Hk. subst k.
    apply filter_In in Hin. destruct Hin as [Hin Hc].
    apply Nat.eqb_eq in Hc. cbn in Hc. subst c.
    assert (Hmkey : In m (map fst (Counter xs))).
    { apply in_map_iff. now exists (m, M). }
    assert (Hmxs : In m xs) by auto.
    split; [assumption|].
    intros y Hy. rewrite Forall_forall in HD.
    rewrite <- (Hget m) by auto. rewrite <- (Hget y) by auto.
    rewrite (@counter_get_entry (Counter xs) m M Hdist HDkeys Hin).
    destruct (counter_get_bound (Counter xs) y) as [->|Hb]; [lia|auto].
Qed.
End ModeFacts.

(** ** [==] on floats *)

Lemma SFcompare_Eq_iff (x y : spec_float) :
  SFcompare x y = Some Eq <-> SFvalue x <> None /\ SFvalue x = SFvalue y.
Proof.
  split.
  - destruct x as [sx|sx| |sx mx ex], y as [sy|sy| |sy my ey]; cbn;
      try discriminate; try (destruct sx; discriminate);
      try (destruct sy; discriminate);
      try (intros _; split; [discriminate|reflexivity]).
    + destruct sx, sy; try discriminate; intros _; split; (discriminate || reflexivity).
    + destruct sx, sy; try discriminate;
        destruct (Z.compare ex ey) eqn:Ee; try discriminate;
        apply Z.compare_eq in Ee; subst ey;
        destruct (Pos.compare_cont Eq mx my) eqn:Em; try discriminate;
        apply Pos.compare_eq in Em; subst my;
        intros _; split; (discriminate || reflexivity).
  - intros [Hx E].
    destruct x as [sx|sx| |sx mx ex], y as [sy|sy| |sy my ey]; cbn in *;
      try congruence.
    + injection E as ->. destruct sy; reflexivity.
    + injection E as -> -> ->.
      destruct sy; rewrite Z.compare_refl;
        change (Pos.compare_cont Eq my my) with (Pos.compare my my);
        now rewrite Pos.compare_refl.
Qed.

Lemma float_eq_iff (a b : float) :
  feq a b = true <->
  SFvalue (Prim2SF a) <> None /\ SFvalue (Prim2SF a) = SFvalue (Prim2SF b).
Proof.
  cbn. rewrite eqb_spec. unfold SFeqb. rewrite <- SFcompare_Eq_iff.
  destruct (SFcompare (Prim2SF a) (Prim2SF b)) as [[| |]|];
    split; (congruence || reflexivity).
Qed.

Lemma float_not_nan (a : float) :
  is_nan a = false -> SFvalue (Prim2SF a) <> None.
Proof.
  unfold is_nan. intros Hn. apply negb_false_iff in Hn.
  now apply (float_eq_iff a a) in Hn.
Qed.

Lemma float_eq_refl (a : float) : is_nan a = false -> feq a a = true.
Proof. intros Ha. apply float_eq_iff. split; [now apply float_not_nan|reflexivity]. Qed.

Lemma float_eq_sym (a b : float) : feq a b = true -> feq b a = true.
Proof.
  rewrite !float_eq_iff. intros [Ha E]. split; [now rewrite <- E|now symmetry].
Qed.

Lemma float_eq_trans (a b c : float) :
  feq a b = true -> feq b c = true -> feq a c = true.
Proof.
  rewrite !float_eq_iff. intros [Ha Eab] [_ Ebc]. split; [assumption|congruence].
Qed.

(** ** [magnitude] on floats *)

Lemma binary_round_aux_sign (sx : bool) (mx ex : Z) (lx : location) :
  match binary_round_aux prec emax sx mx ex lx with
  | S754_zero s | S754_infinity s | S754_finite s _ _ => s = sx
  | S754_nan => True
  end.
Proof.
  unfold binary_round_aux.
  destruct (shr_fexp prec emax mx ex lx) as [mrs' e'].
  destruct (shr_fexp prec emax _ e' loc_Exact) as [mrs'' e''].
  destruct (shr_m mrs''); [reflexivity| |exact I].
  destruct (Z.leb e'' (emax - prec)); reflexivity.
Qed.

(** A square root is never below zero: it is a zero, positive, or a NaN. *)
Lemma float_sqrt_not_negative (x : float) :
  PrimFloat.ltb (PrimFloat.sqrt x) 0 = false.
Proof.
  rewrite ltb_spec, sqrt_spec.
  change (Prim2SF 0) with (S754_zero false).
  unfold SF64sqrt, SFsqrt.
  destruct (Prim2SF x) as [s|[|]| |[|] m e]; try reflexivity.
  destruct (SFsqrt_core_binary prec emax (Zpos m) e) as [[mz ez] lz].
  pose proof (binary_round_aux_sign false mz ez lz) as Hs.
  destruct (binary_round_aux prec emax false mz ez lz) as [s|s| |s m' e'];
    try subst s; reflexivity.
Qed.

Lemma float_eq_zero (a : float) :
  PrimFloat.eqb a 0 = true -> exists s, Prim2SF a = S754_zero s.
Proof.
  rewrite eqb_spec. change (Prim2SF 0) with (S754_zero false).
  unfold SFeqb. destruct (Prim2SF a) as [s|[|]| |[|] m e]; cbn; try discriminate.
  intros _. now exists s.
Qed.

Lemma float_zero_square (a : float) :
  PrimFloat.eqb a 0 = true -> PrimFloat.mul a a = 0%float.
Proof.
  intros Ha. destruct (float_eq_zero Ha) as [s Hs].
  apply Prim2SF_inj. rewrite mul_spec, Hs.
  destruct s; reflexivity.
Qed.

Lemma float_sum_of_zeros (xs : list float) :
  Forall (fun x => x = 0%float) xs -> fold_left PrimFloat.add xs 0%float = 0%float.
Proof.
  induction 1 as [|x xs -> _ IH]; cbn; [reflexivity|].
  change (0 + 0)%float with 0%float. exact IH.
Qed.

Lemma magnitude_float (v : list float) :
  (forall m, magnitude v = Ok m -> PrimFloat.ltb m 0 = false) /\
  (Forall (fun a => PrimFloat.eqb a 0 = true) v -> magnitude v = Ok 0%float).
Proof.
  unfold magnitude, sum_of_squares, dot. rewrite Nat.eqb_refl. cbn [bind].
  unfold math_sqrt. split.
  - intros m. destruct (flt _ (of_int 0)); [discriminate|].
    intros E. injection E as <-. apply float_sqrt_not_negative.
  - intros Hz.
    assert (Hsum : py_sum (map (fun p => fmul (fst p) (snd p)) (combine v v))
                   = 0%float).
    { unfold py_sum. apply float_sum_of_zeros.
      induction Hz as [|a v' Ha _ IH]; cbn; constructor; [|exact IH].
      now apply float_zero_square. }
    rewrite Hsum. reflexivity.
Qed.

(** C7, as the code has it: on floats [magnitude v] is never below
    zero, and it is 0 when every element of [v] is 0; in exact
    arithmetic [magnitude v] is defined and non-negative, and it is 0
    exactly when every element of [v] is 0. *)
Theorem magnitude_nonneg_zero :
  (forall v : list float,
     (forall m, magnitude v = Ok m -> PrimFloat.ltb m 0 = false) /\
     (Forall (fun a => PrimFloat.eqb a 0 = true) v -> magnitude v = Ok 0%float)) /\
  (forall v : list R,
     exists m, magnitude v = Ok m /\ (0 <= m)%R /\
               (m = 0%R <-> Forall (fun a => a = 0%R) v)).
Proof.
  split.
  - exact magnitude_float.
  - exact magnitude_R_nonneg_zero.
Qed.

Lemma distinct_R_NoDup (ms : list R) :
  ForallOrdPairs (fun a b : R => feq a b = false) ms -> NoDup ms.
Proof.
  induction 1 as [|a l Ha Hl IH]; constructor; [|assumption].
  intros Hin. rewrite Forall_forall in Ha. specialize (Ha a Hin).
  cbn in Ha. destruct (Req_dec_T a a); congruence.
Qed.

(** ** Rounding: the index [int(p * len(xs))] on floats *)

Section FloatIndex.
Local Open Scope Z_scope.
Local Unset Implicit Arguments.

(** The number of binary digits of a mantissa. *)
Lemma digits2_pos_size (p : positive) : digits2_pos p = Pos.size p.
Proof. induction p; cbn; congruence. Qed.

Lemma digits2_bounds (p : positive) :
  2 ^ (Zpos (digits2_pos p) - 1) <= Zpos p < 2 ^ Zpos (digits2_pos p).
Proof.
  rewrite digits2_pos_size.
  pose proof (Pos.size_gt p) as Hgt. pose proof (Pos.size_le p) as Hle.
  apply Pos2Z.pos_lt_pos in Hgt. apply Pos2Z.pos_le_pos in Hle.
  rewrite Pos2Z.inj_pow in Hgt, Hle.
  assert (E : 2 ^ Zpos (Pos.size p) = 2 * 2 ^ (Zpos (Pos.size p) - 1)).
  { rewrite <- Z.pow_succ_r by lia. f_equal. lia. }
  lia.
Qed.

Lemma digits2_unique (p : positive) (d : Z) :
  2 ^ (d - 1) <= Zpos p < 2 ^ d -> Zpos (digits2_pos p) = d.
Proof.
  intros [Hlo Hhi]. destruct (digits2_bounds p) as [Hlo' Hhi'].
  assert (Hd : 0 < d).
  { destruct (Z.ltb_spec 0 d) as [|Hn]; [assumption|].
    destruct (Z.eqb_spec d 0) as [->|]; [cbn in Hhi; lia|].
    rewrite Z.pow_neg_r in Hhi by lia. lia. }
  destruct (Z.lt_trichotomy (Zpos (digits2_pos p)) d) as [Hc|[Hc|Hc]]; [|assumption|].
  - assert (2 ^ Zpos (digits2_pos p) <= 2 ^ (d - 1)) by (apply Z.pow_le_mono_r; lia). lia.
  - assert (2 ^ d <= 2 ^ (Zpos (digits2_pos p) - 1)) by (apply Z.pow_le_mono_r; lia). lia.
Qed.

(** Iterating [shr_1]. *)
Lemma iter_pos_invariant {A : Type} (f : A -> A) (P : Z -> A -> Prop) :
  (forall j x, 0 <= j -> P j x -> P (j + 1) (f x)) ->
  forall (n : positive) (j : Z) (x : A), 0 <= j -> P j x -> P (j + Zpos n) (SpecFloat.iter_pos f n x).
Proof.
  intros Hstep. induction n as [n IH|n IH|]; intros j x Hj Hx; cbn [SpecFloat.iter_pos].
  - replace (j + Zpos n~1) with (j + 1 + Zpos n + Zpos n) by lia.
    apply IH; [lia|]. apply IH; [lia|]. now apply Hstep.
  - replace (j + Zpos n~0) with (j + Zpos n + Zpos n) by lia.
    apply IH; [lia|]. now apply IH.
  - now apply Hstep.
Qed.

Lemma shr_1_spec (mrs : shr_record) :
  0 <= shr_m mrs ->
  shr_m (shr_1 mrs) = shr_m mrs / 2 /\
  shr_r (shr_1 mrs) = Z.odd (shr_m mrs) /\
  shr_s (shr_1 mrs) = shr_r mrs || shr_s mrs.
Proof.
  destruct mrs as [m r s]. cbn [shr_m shr_r shr_s]. intros Hm.
  rewrite <- Z.div2_div.
  destruct m as [|[p|p|]|p]; try lia; cbn; auto.
Qed.

Lemma shifted_step (M j : Z) (mrs : shr_record) :
  0 <= M -> 0 <= j -> shifted M j mrs -> shifted M (j + 1) (shr_1 mrs).
Proof.
  intros HM Hj (Hm & Hr & Hz).
  assert (Hpos : 0 < 2 ^ j) by (apply Z.pow_pos_nonneg; lia).
  assert (Hm0 : 0 <= shr_m mrs) by (rewrite Hm; apply Z.div_pos; lia).
  destruct (shr_1_spec mrs Hm0) as (Hm1 & Hr1 & Hs1).
  assert (Hmod : M mod 2 ^ (j + 1) = M mod 2 ^ j + 2 ^ j * ((M / 2 ^ j) mod 2)).
  { rewrite Z.pow_add_r, Z.pow_1_r by lia. apply Z.rem_mul_r; lia. }
  assert (Hodd : (M / 2 ^ j) mod 2 = if Z.odd (M / 2 ^ j) then 1 else 0).
  { rewrite <- Z.bit0_odd, <- Z.bit0_mod. now destruct (Z.testbit _ 0). }
  pose proof (Z.mod_pos_bound M (2 ^ j) Hpos) as Hb.
  split; [|split].
  - rewrite Hm1, Hm, Z.pow_add_r, Z.pow_1_r by lia.
    rewrite Z.div_div by lia. reflexivity.
  - rewrite Hr1, Hm. intros Ho. rewrite Ho in Hodd.
    rewrite Hmod, Hodd, Z.pow_add_r, Z.pow_1_r by lia. lia.
  - rewrite Hr1, Hs1, Hm, Hmod, Hodd. intros H0.
    destruct (Z.odd (M / 2 ^ j)); [lia|].
    assert (Hz0 : M mod 2 ^ j = 0) by lia.
    destruct (Hz Hz0) as [-> ->]. split; reflexivity.
Qed.

Lemma shr_shifted (M e k : Z) :
  0 <= M -> 0 < k ->
  exists mrs, shr (shr_record_of_loc M loc_Exact) e k = (mrs, e + k) /\ shifted M k mrs.
Proof.
  intros HM Hk. destruct k as [|k|k]; try lia. cbn [shr shr_record_of_loc].
  eexists. split; [reflexivity|].
  apply (iter_pos_invariant shr_1 (shifted M)) with (j := 0) (n := k).
  - intros j x Hj. now apply shifted_step.
  - lia.
  - unfold shifted. cbn [shr_m shr_r shr_s]. rewrite Z.pow_0_r, Z.div_1_r, Z.mod_1_r.
    repeat split; try discriminate.
Qed.

Lemma shr_none (mrs : shr_record) (e k : Z) : k <= 0 -> shr mrs e k = (mrs, e).
Proof. destruct k; try reflexivity. lia. Qed.

(** The first shift of [binary_round_aux] and the rounding to nearest:
    the rounded mantissa exceeds the exact quotient by at most a half. *)
Lemma shr_fexp_round (M : positive) (E : Z) :
  let k := fexp prec emax (Zpos (digits2_pos M) + E) - E in
  exists mrs,
    shr_fexp prec emax (Zpos M) E loc_Exact = (mrs, E + Z.max 0 k) /\
    0 <= round_nearest_even (shr_m mrs) (loc_of_shr_record mrs) /\
    2 * (round_nearest_even (shr_m mrs) (loc_of_shr_record mrs) * 2 ^ Z.max 0 k)
    <= 2 * Zpos M + (if 0 <? k then 2 ^ k else 0).
Proof.
  intros k. unfold shr_fexp. cbn [Zdigits2]. fold k.
  destruct (Z.ltb_spec 0 k) as [Hk|Hk].
  - destruct (shr_shifted (Zpos M) E k) as (mrs & Hshr & Hm & Hr & _); [lia|lia|].
    exists mrs. rewrite Z.max_r by lia. split; [exact Hshr|].
    assert (Hpos : 0 < 2 ^ k) by (apply Z.pow_pos_nonneg; lia).
    pose proof (Z.div_mod (Zpos M) (2 ^ k) ltac:(lia)) as Hdm.
    pose proof (Z.mod_pos_bound (Zpos M) (2 ^ k) Hpos) as Hb.
    assert (Hq : 0 <= Zpos M / 2 ^ k) by (apply Z.div_pos; lia).
    destruct mrs as [m r s]. cbn [shr_m shr_r shr_s] in *. subst m.
    destruct r, s; cbn [loc_of_shr_record round_nearest_even];
      try destruct (Z.even _); try specialize (Hr eq_refl); split; nia.
  - exists (Build_shr_record (Zpos M) false false).
    rewrite Z.max_l by lia. rewrite shr_none by lia. cbn [shr_record_of_loc].
    rewrite Z.add_0_r. split; [reflexivity|].
    cbn [shr_m loc_of_shr_record round_nearest_even]. rewrite Z.pow_0_r. lia.
Qed.

(** The second shift of [binary_round_aux] never increases the value. *)
Lemma shr_fexp_exact_le (m e : Z) :
  0 <= m ->
  exists mrs k,
    shr_fexp prec emax m e loc_Exact = (mrs, e + k) /\
    0 <= k /\ 0 <= shr_m mrs /\ shr_m mrs * 2 ^ k <= m.
Proof.
  intros Hm. unfold shr_fexp.
  set (k := fexp prec emax (Zdigits2 m + e) - e).
  destruct (Z.ltb_spec 0 k) as [Hk|Hk].
  - destruct (shr_shifted m e k) as (mrs & Hshr & Hq & _); [lia|lia|].
    exists mrs, k. split; [exact Hshr|].
    assert (Hpos : 0 < 2 ^ k) by (apply Z.pow_pos_nonneg; lia).
    rewrite Hq. split; [lia|]. split; [apply Z.div_pos; lia|].
    rewrite Z.mul_comm. apply Z.mul_div_le. lia.
  - exists (Build_shr_record m false false), 0.
    rewrite shr_none by lia. cbn [shr_record_of_loc shr_m].
    rewrite Z.add_0_r, Z.pow_0_r. repeat split; lia.
Qed.

(** What [binary_round_aux] returns on an exact positive mantissa, and
    how far above the exact value it may lie. *)
Lemma binary_round_aux_bound (s : bool) (M : positive) (E : Z) :
  let k := fexp prec emax (Zpos (digits2_pos M) + E) - E in
  exists m kk : Z,
    0 <= m /\ Z.max 0 k <= kk /\
    2 * (m * 2 ^ kk) <= 2 * Zpos M + (if 0 <? k then 2 ^ k else 0) /\
    binary_round_aux prec emax s (Zpos M) E loc_Exact =
    match m with
    | Z0 => S754_zero s
    | Zpos m' =>
        if E + kk <=? emax - prec then S754_finite s m' (E + kk) else S754_infinity s
    | Zneg _ => S754_nan
    end.
Proof.
  intros k. destruct (shr_fexp_round M E) as (mrs & Hshr & Hr0 & Hr). fold k in Hshr, Hr.
  set (mr := round_nearest_even (shr_m mrs) (loc_of_shr_record mrs)) in *.
  destruct (shr_fexp_exact_le mr (E + Z.max 0 k) Hr0) as (mrs2 & k2 & Hshr2 & Hk2 & Hm2 & Hle).
  exists (shr_m mrs2), (Z.max 0 k + k2).
  split; [exact Hm2|]. split; [lia|]. split.
  - rewrite Z.pow_add_r by lia.
    assert (0 < 2 ^ Z.max 0 k) by (apply Z.pow_pos_nonneg; lia). nia.
  - unfold binary_round_aux. rewrite Hshr. fold mr. rewrite Hshr2.
    rewrite Z.add_assoc. reflexivity.
Qed.

(** When nothing is lost [binary_round_aux] is exact. *)
Lemma binary_round_aux_exact (s : bool) (M m : positive) (E k : Z) :
  0 <= k -> Zpos M = Zpos m * 2 ^ k ->
  fexp prec emax (Zpos (digits2_pos M) + E) = E + k ->
  fexp prec emax (Zpos (digits2_pos m) + (E + k)) = E + k ->
  E + k <= emax - prec ->
  binary_round_aux prec emax s (Zpos M) E loc_Exact = S754_finite s m (E + k).
Proof.
  intros Hk HM Hf1 Hf2 Hmax.
  assert (Hshr : exists mrs, shr_fexp prec emax (Zpos M) E loc_Exact = (mrs, E + k) /\
                  round_nearest_even (shr_m mrs) (loc_of_shr_record mrs) = Zpos m).
  { unfold shr_fexp. cbn [Zdigits2]. rewrite Hf1.
    replace (E + k - E) with k by lia.
    destruct (Z.eqb_spec k 0) as [->|Hk0].
    - eexists. rewrite shr_none by lia. rewrite Z.add_0_r. split; [reflexivity|].
      cbn. rewrite HM. cbn. lia.
    - destruct (shr_shifted (Zpos M) E k) as (mrs & Hs & Hq & _ & Hz); [lia|lia|].
      exists mrs. split; [exact Hs|].
      assert (Hpos : 0 < 2 ^ k) by (apply Z.pow_pos_nonneg; lia).
      rewrite HM in Hq, Hz. rewrite Z.div_mul in Hq by lia.
      rewrite Z.mod_mul in Hz by lia. destruct (Hz eq_refl) as [Hr Hst].
      destruct mrs as [m' r' s']. cbn in *. subst. reflexivity. }
  destruct Hshr as (mrs & Hs & Hr).
  unfold binary_round_aux. rewrite Hs, Hr.
  unfold shr_fexp. cbn [Zdigits2]. rewrite Hf2, Z.sub_diag, shr_none by lia.
  cbn [shr_record_of_loc shr_m].
  destruct (Z.leb_spec (E + k) (emax - prec)); [reflexivity|lia].
Qed.

Lemma fexp_binary64 (e : Z) : fexp prec emax e = Z.max (e - 53) (-1074).
Proof. reflexivity. Qed.

Lemma iter_xO_value (m q : positive) : Zpos (Pos.iter xO m q) = Zpos m * 2 ^ Zpos q.
Proof.
  induction q as [|q IH] using Pos.peano_ind.
  - cbn. lia.
  - rewrite Pos.iter_succ, Pos2Z.inj_succ, Z.pow_succ_r by lia.
    rewrite Pos2Z.inj_xO, IH. lia.
Qed.

Lemma shl_align_value (m : positive) (e e' : Z) :
  e' <= e ->
  exists m', shl_align m e e' = (m', e') /\ Zpos m' = Zpos m * 2 ^ (e - e').
Proof.
  intros Hle. unfold shl_align. destruct (e' - e) as [|q|q] eqn:Hd; try lia.
  - assert (e' = e) by lia. subst. exists m. rewrite Z.sub_diag, Z.pow_0_r. split; [reflexivity|lia].
  - eexists. split; [reflexivity|]. rewrite iter_xO_value. f_equal. f_equal. lia.
Qed.

(** [float(n)] is exact for [0 < n < 2^53]. *)
Lemma float_of_int_exact (n : Z) :
  0 < n < 2 ^ 53 ->
  exists (mn : positive) (en : Z),
    Prim2SF (float_of_int n) = S754_finite false mn en /\
    -52 <= en <= 0 /\ Zpos mn = n * 2 ^ (- en) /\ Zpos (digits2_pos mn) = 53.
Proof.
  intros [H0 Hn]. destruct n as [|pn|pn]; try lia.
  unfold float_of_int, binary_normalize, binary_round.
  destruct (digits2_bounds pn) as [Hlo Hhi].
  set (d := Zpos (digits2_pos pn)) in *.
  assert (Hd : 1 <= d <= 53).
  { split; [unfold d; lia|].
    destruct (Z.leb_spec d 53) as [|Hc]; [assumption|].
    assert (2 ^ 53 <= 2 ^ (d - 1)) by (apply Z.pow_le_mono_r; lia). lia. }
  rewrite Z.add_0_r, fexp_binary64, Z.max_l by lia.
  destruct (shl_align_value pn 0 (d - 53)) as (mz & -> & Hmz); [lia|].
  replace (0 - (d - 53)) with (53 - d) in Hmz by lia.
  assert (Hdz : Zpos (digits2_pos mz) = 53).
  { apply digits2_unique. rewrite Hmz.
    replace (2 ^ (53 - 1)) with (2 ^ (d - 1) * 2 ^ (53 - d))
      by (rewrite <- Z.pow_add_r by lia; f_equal; lia).
    replace (2 ^ 53) with (2 ^ d * 2 ^ (53 - d))
      by (rewrite <- Z.pow_add_r by lia; f_equal; lia).
    assert (0 < 2 ^ (53 - d)) by (apply Z.pow_pos_nonneg; lia). nia. }
  assert (Hr : binary_round_aux prec emax false (Zpos mz) (d - 53) loc_Exact
               = S754_finite false mz (d - 53)).
  { replace (d - 53) with (d - 53 + 0) at 2 by lia.
    apply binary_round_aux_exact with (k := 0).
    - lia.
    - rewrite Z.pow_0_r. lia.
    - rewrite Hdz, fexp_binary64. lia.
    - rewrite Hdz, fexp_binary64. lia.
    - unfold emax, prec. lia. }
  rewrite Hr. exists mz, (d - 53). split.
  - apply Prim2SF_SF2Prim. unfold valid_binary, SpecFloat.bounded, SpecFloat.canonical_mantissa.
    rewrite Hdz, fexp_binary64. apply andb_true_iff. split.
    + apply Z.eqb_eq. lia.
    + apply Z.leb_le. unfold emax, prec. lia.
  - split; [lia|]. split; [|exact Hdz]. rewrite Hmz. f_equal. f_equal. lia.
Qed.

(** Comparisons of spec floats, by cases. *)
Lemma SFleb_zero_cases (x : spec_float) :
  SFleb (S754_zero false) x = true ->
  match x with
  | S754_zero _ | S754_infinity false | S754_finite false _ _ => True
  | _ => False
  end.
Proof. destruct x as [s|s| |s m e]; try destruct s; cbn; trivial; discriminate. Qed.

Lemma SFltb_finite_cases (x : spec_float) (m2 : positive) (e2 : Z) :
  SFltb x (S754_finite false m2 e2) = true ->
  match x with
  | S754_finite false m1 e1 => e1 < e2 \/ (e1 = e2 /\ Zpos m1 < Zpos m2)
  | S754_infinity false | S754_nan => False
  | _ => True
  end.
Proof.
  destruct x as [s|s| |s m1 e1]; try destruct s; cbn; trivial; try discriminate.
  unfold SFltb, SFcompare.
  destruct (Z.compare_spec e1 e2) as [He|He|He]; try discriminate; [|now left].
  rewrite Pos.compare_cont_spec. unfold Pos.switch_Eq.
  destruct (Pos.compare_spec m1 m2) as [Hm|Hm|Hm]; try discriminate.
  intros _. right. split; [exact He|]. now apply Pos2Z.pos_lt_pos.
Qed.

(** A float [p] with [0 <= p < 1]: a zero, or positive with exponent at
    most [-53]. *)
Lemma float_unit_interval (p : float) :
  PrimFloat.leb 0 p = true -> PrimFloat.ltb p 1 = true ->
  (exists s, Prim2SF p = S754_zero s) \/
  (exists m e, Prim2SF p = S754_finite false m e /\
               Zpos m < 2 ^ 53 /\ -1074 <= e <= -53).
Proof.
  rewrite leb_spec, ltb_spec.
  change (Prim2SF 0) with (S754_zero false).
  change (Prim2SF 1) with (S754_finite false 4503599627370496 (-52)).
  pose proof (Prim2SF_valid p) as Hv. intros Hle Hlt.
  apply SFleb_zero_cases in Hle. apply SFltb_finite_cases in Hlt.
  destruct (Prim2SF p) as [s|s| |s m e]; try contradiction.
  - left. now exists s.
  - destruct s; contradiction.
  - destruct s; [contradiction|]. right. exists m, e.
    split; [reflexivity|].
    unfold valid_binary, SpecFloat.bounded, SpecFloat.canonical_mantissa in Hv.
    apply andb_true_iff in Hv. destruct Hv as [Hc _].
    apply Z.eqb_eq in Hc. rewrite fexp_binary64 in Hc.
    destruct (digits2_bounds m) as [Hlo Hhi].
    set (d := Zpos (digits2_pos m)) in *.
    assert (Hd : d <= 53) by lia.
    assert (Hm : Zpos m < 2 ^ 53).
    { assert (2 ^ d <= 2 ^ 53) by (apply Z.pow_le_mono_r; lia). lia. }
    split; [exact Hm|]. split; [lia|].
    destruct Hlt as [He|[He Hlt]]; [lia|]. exfalso.
    assert (Hd53 : d = 53) by lia.
    assert (Hp : 2 ^ (d - 1) = 4503599627370496) by (rewrite Hd53; reflexivity).
    lia.
Qed.

(** The index [int(p * n)] for a float [0 <= p < 1] and a length
    [0 < n < 2^53]: the rounded product stays below [n]. *)
Lemma int_of_float_mul_unit (p : float) (n : Z) :
  0 < n < 2 ^ 53 ->
  PrimFloat.leb 0 p = true -> PrimFloat.ltb p 1 = true ->
  exists k,
    int_of_float (PrimFloat.mul p (float_of_int n)) = Ok k /\ 0 <= k < n /\
    SFnot_negative (Prim2SF (PrimFloat.mul p (float_of_int n))).
Proof.
  intros Hn Hle Hlt.
  destruct (float_of_int_exact n Hn) as (mn & en & Hfn & Hen & Hmn & Hdn).
  unfold int_of_float. rewrite mul_spec, Hfn. unfold SF64mul.
  destruct (float_unit_interval p Hle Hlt) as [[s ->]|(m & e & -> & Hm & He)].
  - cbn [SFmul]. exists 0. split; [reflexivity|]. split; [lia|exact I].
  - cbn [SFmul xorb].
    destruct (binary_round_aux_bound false (m * mn) (e + en))
      as (mf & kk & Hmf & Hkk & Hb & ->).
    set (E := e + en) in *.
    set (k := fexp prec emax (Zpos (digits2_pos (m * mn)) + E) - E) in *.
    set (N := n * 2 ^ (- E)).
    assert (HN : N = Zpos mn * 2 ^ (- e)).
    { unfold N, E. rewrite Hmn. replace (- (e + en)) with (- en + - e) by lia.
      rewrite Z.pow_add_r by lia. lia. }
    assert (Hmnpos : 0 < 2 ^ (- en)) by (apply Z.pow_pos_nonneg; lia).
    assert (HM : 2 * Zpos (m * mn) + 2 * Zpos mn <= 2 * N).
    { rewrite HN, Pos2Z.inj_mul.
      assert (2 ^ 53 <= 2 ^ (- e)) by (apply Z.pow_le_mono_r; lia). nia. }
    assert (Hslack : (if 0 <? k then 2 ^ k else 0) < 2 * Zpos mn).
    { destruct (Z.ltb_spec 0 k) as [Hk|Hk]; [|lia].
      unfold k. rewrite fexp_binary64.
      destruct (digits2_bounds (m * mn)) as [Hlo _].
      set (d := Zpos (digits2_pos (m * mn))) in *.
      destruct (Z.max_spec (d + E - 53) (-1074)) as [[Hc Hmax]|[Hc Hmax]].
      + (* the subnormal range *)
        assert (Hk' : k = -1074 - E) by (unfold k; rewrite fexp_binary64; lia).
        rewrite Hmax.
        assert (2 ^ (-1074 - E) <= 2 ^ (- en)) by (apply Z.pow_le_mono_r; unfold E; lia).
        nia.
      + assert (Hk' : k = d - 53) by (unfold k; rewrite fexp_binary64; lia).
        rewrite Hmax. replace (d + E - 53 - E) with (d - 53) by lia.
        assert (Hsplit : 2 ^ (d - 1) = 2 ^ (d - 53) * 2 ^ 52).
        { rewrite <- Z.pow_add_r by lia. f_equal. lia. }
        rewrite Pos2Z.inj_mul in Hlo.
        assert (0 < 2 ^ (d - 53)) by (apply Z.pow_pos_nonneg; lia).
        change (2 ^ 52) with 4503599627370496 in Hsplit.
        change (2 ^ 53) with 9007199254740992 in Hm.
        nia. }
    assert (Hval : mf * 2 ^ kk < N) by lia.
    assert (Hkk0 : 0 <= kk) by lia.
    assert (Hpk : 0 < 2 ^ kk) by (apply Z.pow_pos_nonneg; lia).
    destruct mf as [|mf|mf]; [exists 0; split; [reflexivity|split; [lia|exact I]]| |lia].
    assert (HE : E + kk < 53).
    { assert (Hlt2 : 2 ^ kk < 2 ^ (53 - E)).
      { replace (53 - E) with (53 + - E) by lia. rewrite Z.pow_add_r by (unfold E; lia).
        assert (0 < 2 ^ (- E)) by (apply Z.pow_pos_nonneg; unfold E; lia).
        unfold N in Hval. nia. }
      apply Z.pow_lt_mono_r_iff in Hlt2; unfold E in *; lia. }
    destruct (Z.leb_spec (E + kk) (emax - prec)) as [_|Hc]; [|unfold emax, prec in Hc; lia].
    eexists. split; [reflexivity|]. split; [|exact I].
    destruct (E + kk) as [|q|q] eqn:Hq.
    + assert (kk = - E) by lia. subst kk. unfold N in Hval.
      assert (0 < 2 ^ (- E)) by (apply Z.pow_pos_nonneg; unfold E; lia). nia.
    + assert (Hkq : kk = Zpos q + - E) by lia.
      rewrite Hkq, Z.pow_add_r in Hval by (unfold E; lia). unfold N in Hval.
      assert (0 < 2 ^ (- E)) by (apply Z.pow_pos_nonneg; unfold E; lia).
      assert (0 < 2 ^ Zpos q) by (apply Z.pow_pos_nonneg; lia).
      nia.
    + assert (HEq : - E = kk + Zpos q) by lia.
      unfold N in Hval. rewrite HEq, Z.pow_add_r in Hval by lia.
      assert (0 < 2 ^ Zpos q) by (apply Z.pow_pos_nonneg; lia).
      split; [apply Z.div_pos; lia|].
      apply Z.div_lt_upper_bound; [lia|]. nia.
Qed.

(** [1.0 * n] is [n] for [0 < n < 2^53], and [int] gives back [n]. *)
Lemma int_of_float_mul_one (n : Z) :
  0 < n < 2 ^ 53 ->
  int_of_float (PrimFloat.mul 1 (float_of_int n)) = Ok n.
Proof.
  intros Hn.
  destruct (float_of_int_exact n Hn) as (mn & en & Hfn & Hen & Hmn & Hdn).
  unfold int_of_float. rewrite mul_spec, Hfn. unfold SF64mul.
  change (Prim2SF 1) with (S754_finite false 4503599627370496 (-52)).
  cbn [SFmul xorb].
  assert (Hval : Zpos (4503599627370496 * mn) = Zpos mn * 2 ^ 52).
  { rewrite Pos2Z.inj_mul. change (2 ^ 52) with 4503599627370496. lia. }
  rewrite (binary_round_aux_exact false (4503599627370496 * mn) mn (-52 + en) 52).
  - replace (-52 + en + 52) with en by lia.
    destruct en as [|q|q]; try lia.
    + f_equal. rewrite Hmn. cbn. lia.
    + f_equal. rewrite Hmn. cbn [Z.opp]. apply Z.div_mul.
      assert (0 < 2 ^ Zpos q) by (apply Z.pow_pos_nonneg; lia). lia.
  - lia.
  - exact Hval.
  - assert (Hd : Zpos (digits2_pos (4503599627370496 * mn)) = 105).
    { apply digits2_unique. rewrite Hval.
      destruct (digits2_bounds mn) as [Hlo Hhi]. rewrite Hdn in Hlo, Hhi.
      replace (2 ^ (105 - 1)) with (2 ^ (53 - 1) * 2 ^ 52) by (rewrite <- Z.pow_add_r by lia; reflexivity).
      replace (2 ^ 105) with (2 ^ 53 * 2 ^ 52) by (rewrite <- Z.pow_add_r by lia; reflexivity).
      assert (0 < 2 ^ 52) by (apply Z.pow_pos_nonneg; lia). nia. }
    rewrite Hd, fexp_binary64. lia.
  - replace (-52 + en + 52) with en by lia. rewrite Hdn, fexp_binary64. lia.
  - unfold emax, prec. lia.
Qed.

Lemma trunc_floor (m : positive) (e a : Z) :
  a = match e with
      | Z0 => Zpos m
      | Zpos q => Zpos m * 2 ^ Zpos q
      | Zneg q => Zpos m / 2 ^ Zpos q
      end ->
  (IZR a <= IZR (Zpos m) * powerRZ 2 e < IZR a + 1)%R.
Proof.
  destruct e as [|q|q]; intros ->; unfold powerRZ.
  - lra.
  - assert (HT : IZR (2 ^ Zpos q) = (2 ^ Pos.to_nat q)%R).
    { rewrite <- (positive_nat_Z q) at 1. now rewrite <- pow_IZR. }
    rewrite mult_IZR, HT. lra.
  - assert (HT : IZR (2 ^ Zpos q) = (2 ^ Pos.to_nat q)%R).
    { rewrite <- (positive_nat_Z q) at 1. now rewrite <- pow_IZR. }
    assert (Hpos : (0 < 2 ^ Pos.to_nat q)%R) by (apply pow_lt; lra).
    assert (Hz : 0 < 2 ^ Zpos q) by (apply Z.pow_pos_nonneg; lia).
    pose proof (Z.mul_div_le (Zpos m) (2 ^ Zpos q) Hz) as Hlo.
    pose proof (Z.mul_succ_div_gt (Zpos m) (2 ^ Zpos q) Hz) as Hhi.
    apply IZR_le in Hlo. apply IZR_lt in Hhi.
    rewrite mult_IZR, HT in Hlo. rewrite mult_IZR, succ_IZR, HT in Hhi.
    set (a := IZR (Zpos m / 2 ^ Zpos q)) in *.
    set (T := (2 ^ Pos.to_nat q)%R) in *.
    set (v := (IZR (Zpos m) * / T)%R).
    assert (Hv : IZR (Zpos m) = (v * T)%R) by (unfold v; field; lra).
    rewrite Hv in Hlo, Hhi. split; nra.
Qed.

(** [int(x)] is the floor of a float [x] that is not negative. *)
Lemma int_of_float_floor (x : float) (k : Z) :
  SFnot_negative (Prim2SF x) -> int_of_float x = Ok k ->
  (IZR k <= SF2R (Prim2SF x) < IZR k + 1)%R.
Proof.
  unfold int_of_float.
  destruct (Prim2SF x) as [s|s| |s m e]; unfold SFnot_negative, SF2R;
    intros Hs Hk; try discriminate.
  - assert (k = 0) by congruence. subst k. lra.
  - destruct s; [contradiction|]. apply trunc_floor. congruence.
Qed.
End FloatIndex.

(** ** algebra.py: the specification of [vector_mean] *)

(** C1: on the empty list [vector_mean] raises: [1/n] is evaluated
    with [n = 0] and yields [ZeroDivisionError] before [vector_sum] is
    called, so no NaN or infinity is ever returned.  On a non-empty
    list of [n] vectors of one length it returns
    [scalar_multiply (1/n) (vector_sum vectors)]: a vector as long as
    the first whose element [i] is [1/n] times the [sum] of the
    elements [i], where [vector_sum] returned the vector of those sums;
    in exact arithmetic element [i] is the arithmetic mean of the
    elements [i]. *)
Theorem vector_mean_spec :
  (forall (S : Type) (Sc : Scalar S),
     vector_mean (@nil (list S)) = Raise ZeroDivisionError /\
     forall (v0 : list S) (vs : list (list S)),
       (forall v, In v vs -> length v = length v0) ->
       exists total m,
         vector_sum (v0 :: vs) = Ok total /\
         vector_mean (v0 :: vs) = Ok m /\
         m = scalar_multiply
               (fdiv (of_int 1) (of_int (Z.of_nat (length (v0 :: vs))))) total /\
         length total = length v0 /\ length m = length v0 /\
         forall i, (i < length v0)%nat ->
           nth_error total i = Some (py_sum (column (v0 :: vs) i)) /\
           nth_error m i =
           Some (fmul (fdiv (of_int 1) (of_int (Z.of_nat (length (v0 :: vs)))))
                      (py_sum (column (v0 :: vs) i)))) /\
  (forall (v0 : list R) (vs : list (list R)),
     (forall v, In v vs -> length v = length v0) ->
     exists m,
       vector_mean (v0 :: vs) = Ok m /\ length m = length v0 /\
       forall i, (i < length v0)%nat ->
         nth_error m i =
         Some (Rsum (map (fun v => nth i v 0%R) (v0 :: vs))
               / INR (length (v0 :: vs)))%R).
Proof.
  assert (Hgen : forall (S : Type) (Sc : Scalar S) (v0 : list S) (vs : list (list S)),
            (forall v, In v vs -> length v = length v0) ->
            vector_mean (v0 :: vs) =
            Ok (scalar_multiply
                  (fdiv (of_int 1) (of_int (Z.of_nat (length (v0 :: vs)))))
                  (map (fun i => py_sum (column (v0 :: vs) i)) (seq 0 (length v0))))).
  { intros S Sc v0 vs Hlen. unfold vector_mean, truediv, Vector. cbv zeta.
    destruct (Z.eqb_spec (Z.of_nat (length (v0 :: vs))) 0) as [E|_];
      [cbn [length] in E; lia|].
    cbn [bind]. now rewrite (vector_sum_equal_length _ _ Hlen). }
  assert (Hnth : forall (S : Type) (Sc : Scalar S) (s : S) (v0 : list S)
                        (vs : list (list S)) (i : nat),
            (i < length v0)%nat ->
            nth_error (scalar_multiply s
                         (map (fun i => py_sum (column (v0 :: vs) i))
                              (seq 0 (length v0)))) i
            = Some (fmul s (py_sum (column (v0 :: vs) i)))).
  { intros S Sc s v0 vs i Hi. unfold scalar_multiply.
    rewrite nth_error_map, nth_error_map, nth_error_seq.
    destruct (Nat.ltb_spec i (length v0)); [reflexivity|lia]. }
  split.
  - intros S Sc. split; [reflexivity|].
    intros v0 vs Hlen. do 2 eexists.
    split; [now apply vector_sum_equal_length|].
    split; [now apply Hgen|]. split; [reflexivity|].
    split; [now rewrite length_map, length_seq|].
    split; [unfold scalar_multiply; now rewrite !length_map, length_seq|].
    intros i Hi. split; [|now apply Hnth].
    rewrite nth_error_map, nth_error_seq.
    destruct (Nat.ltb_spec i (length v0)); [reflexivity|lia].
  - intros v0 vs Hlen. eexists. split; [now apply Hgen|].
    split; [unfold scalar_multiply; now rewrite !length_map, length_seq|].
    intros i Hi. rewrite (Hnth R _ _ v0 vs i Hi). f_equal.
    rewrite py_sum_R. unfold column. cbn [fmul fdiv of_int R_scalar].
    rewrite <- INR_IZR_INZ.
    assert (Hn : INR (length (v0 :: vs)) <> 0%R) by (apply not_0_INR; discriminate).
    field. exact Hn.
Qed.

(** ** statistics.py: the specification *)

(** C3: [quantile] returns the element of the sorted copy at the index
    [int(p * len(xs))] when that index is in range, and raises
    [IndexError] when it is [len(xs)].  On floats, for every non-empty
    sample (of fewer than [2^53] elements) and every [p] with
    [0 <= p < 1], the index is in range: it is the floor of the product
    [p * len(xs)] as the float multiplication rounds it, it is below
    [len(xs)], and [quantile] returns the element there of the sorted
    copy; and at [p = 1.0] the index is [len(xs)] and [quantile] raises
    [IndexError].  In exact arithmetic the same holds with the index
    [floor (p * len xs)] of the exact product. *)
Theorem quantile_spec :
  (forall (S : Type) (Sc : Scalar S) (xs : list S) (p : S) (k : Z),
     to_int (fmul p (of_int (Z.of_nat (length xs)))) = Ok k ->
     ((0 <= k < Z.of_nat (length xs))%Z ->
      exists q, nth_error (sorted xs) (Z.to_nat k) = Some q /\ quantile xs p = Ok q) /\
     (k = Z.of_nat (length xs) -> quantile xs p = Raise IndexError)) /\
  (forall (xs : list float) (p : float),
     xs <> [] -> (Z.of_nat (length xs) < 2 ^ 53)%Z ->
     (PrimFloat.leb 0 p = true -> PrimFloat.ltb p 1 = true ->
      exists (k : nat) (q : float),
        to_int (fmul p (of_int (Z.of_nat (length xs)))) = Ok (Z.of_nat k) /\
        (INR k <= SF2R (Prim2SF (fmul p (of_int (Z.of_nat (length xs)))))
         < INR k + 1)%R /\
        (k < length xs)%nat /\
        Permutation (sorted xs) xs /\ Sorted in_order (sorted xs) /\
        nth_error (sorted xs) k = Some q /\
        quantile xs p = Ok q) /\
     (to_int (fmul 1%float (of_int (Z.of_nat (length xs)))) = Ok (Z.of_nat (length xs)) /\
      quantile xs 1%float = Raise IndexError)) /\
  (forall (xs : list R) (p : R),
     xs <> [] ->
     ((0 <= p < 1)%R ->
      exists (k : nat) (s : list R) (q : R),
        (INR k <= p * INR (length xs) < INR k + 1)%R /\
        (k < length xs)%nat /\
        Permutation s xs /\ StronglySorted Rle s /\
        nth_error s k = Some q /\
        quantile xs p = Ok q) /\
     (to_int (fmul 1%R (of_int (Z.of_nat (length xs)))) = Ok (Z.of_nat (length xs)) /\
      quantile xs 1%R = Raise IndexError)).
Proof.
  split; [|split].
  - intros S Sc xs p k Hk. now apply quantile_at_index.
  - intros xs p Hne Hlen.
    assert (Hn : (0 < Z.of_nat (length xs) < 2 ^ 53)%Z).
    { split; [destruct xs; [congruence|cbn [length]; lia]|exact Hlen]. }
    split.
    + intros Hp0 Hp1.
      destruct (int_of_float_mul_unit p _ Hn Hp0 Hp1) as (k & Hk & Hrange & Hsign).
      destruct (proj1 (@quantile_at_index float float_scalar xs p k Hk) Hrange)
        as (q & Hq & Hquant).
      pose proof (int_of_float_floor _ _ Hsign Hk) as Hfloor.
      exists (Z.to_nat k), q.
      rewrite INR_IZR_INZ, Z2Nat.id by lia.
      split; [exact Hk|]. split; [exact Hfloor|]. split; [lia|].
      split; [apply sorted_Permutation|].
      split; [apply sorted_Sorted; exact float_lt_asym|].
      split; [exact Hq|exact Hquant].
    + pose proof (int_of_float_mul_one _ Hn) as H1.
      split; [exact H1|].
      now apply (proj2 (@quantile_at_index float float_scalar xs 1%float _ H1)).
  - intros xs p Hne. now apply quantile_R.
Qed.

(** The index is the floor of the rounded product, which may lie above
    the exact one: [0.7 * 10] rounds to [7.0] although the number that
    the float [0.7] denotes, times 10, is below 7; [quantile] then
    returns the element at index 7. *)
Remark quantile_rounded_index :
  to_int (fmul 0.7%float (of_int 10)) = Ok 7%Z /\
  (exists m e, Prim2SF 0.7%float = S754_finite false m e /\
               (Zpos m * 10 < 7 * 2 ^ (- e))%Z) /\
  quantile quantile_list 0.7%float = Ok 8%float.
Proof.
  split; [vm_compute; reflexivity|]. split; [|vm_compute; reflexivity].
  exists 6305039478318694%positive, (-53)%Z. split; [vm_compute; reflexivity|].
  vm_compute. reflexivity.
Qed.

(** C4: [mean] of the empty sample raises ([sum(xs) / len(xs)] is a
    division by the int 0: [ZeroDivisionError]); of a non-empty sample
    it returns the sum of the elements divided by their number, for
    every kind of number, and over the reals that is the arithmetic
    mean. *)
Theorem mean_spec :
  (forall (S : Type) (Sc : Scalar S),
     mean (@nil S) = Raise ZeroDivisionError /\
     forall xs : list S, xs <> [] ->
       mean xs = Ok (fdiv (py_sum xs) (of_int (Z.of_nat (length xs))))) /\
  (forall xs : list R, xs <> [] -> mean xs = Ok (Rsum xs / INR (length xs))%R).
Proof.
  split; [|exact mean_R].
  intros S Sc. split; [reflexivity|].
  intros xs Hne. unfold mean, truediv.
  destruct (Z.eqb_spec (Z.of_nat (length xs)) 0) as [E|_]; [|reflexivity].
  destruct xs; [congruence|cbn [length] in E; lia].
Qed.

(** C8: for an odd count [median] is the middle element of the sorted
    copy, for an even count of a non-empty sample the two middle
    elements added and divided by 2; the sorted copy holds the elements
    of the sample and, on floats, none of its elements is followed by a
    smaller one; [median [1; 9; 2; 10]] is 5.5; and the list the caller
    passed, like every list that existed before the call, has the same
    contents after it. *)
Theorem median_spec :
  (forall (S : Type) (Sc : Scalar S),
     (forall xs : list S, Nat.Odd (length xs) ->
        exists m, nth_error (sorted xs) (length xs / 2) = Some m /\ median xs = Ok m) /\
     (forall xs : list S, xs <> [] -> Nat.Even (length xs) ->
        exists lo hi,
          nth_error (sorted xs) (length xs / 2 - 1) = Some lo /\
          nth_error (sorted xs) (length xs / 2) = Some hi /\
          median xs = Ok (fdiv (fadd lo hi) (of_int 2))) /\
     (forall xs : list S, Permutation (sorted xs) xs) /\
     (forall (st : Refs.store) (v : Refs.ref), (v < length st)%nat ->
        exists st',
          Refs.median v st = (median (Refs.contents st v), st') /\
          forall r, (r < length st)%nat -> Refs.contents st' r = Refs.contents st r)) /\
  (forall xs : list float, Sorted in_order (sorted xs)) /\
  median [1; 9; 2; 10]%float = Ok 5.5%float.
Proof.
  split; [|split].
  - intros S Sc. split; [|split; [|split]].
    + intros xs Hodd. now apply median_odd_count.
    + intros xs Hne Heven. now apply median_even_count.
    + intros xs. apply sorted_Permutation.
    + intros st v Hv. exists (st ++ [sorted (Refs.contents st v)]).
      split; [now apply median_store|].
      intros r Hr. unfold Refs.contents. now rewrite app_nth1.
  - intros xs. apply sorted_Sorted. exact float_lt_asym.
  - vm_compute. reflexivity.
Qed.

(** C10: for a non-empty sample [mode] returns a non-empty list whose
    elements are pairwise distinct, occur in the sample, and occur in it
    at least as often as every value of the sample: on floats for every
    sample without a NaN, and on the reals for every sample. *)
Theorem mode_spec :
  (forall xs : list float,
     xs <> [] -> Forall (fun x => is_nan x = false) xs ->
     exists ms,
       mode xs = Ok ms /\ ms <> [] /\
       ForallOrdPairs (fun a b => PrimFloat.eqb a b = false) ms /\
       forall m, In m ms ->
         In m xs /\ forall y, In y xs -> (occurrences y xs <= occurrences m xs)%nat) /\
  (forall xs : list R,
     xs <> [] ->
     exists ms,
       mode xs = Ok ms /\ ms <> [] /\ NoDup ms /\
       forall m, In m ms ->
         In m xs /\ forall y, In y xs -> (occurrences y xs <= occurrences m xs)%nat).
Proof.
  split.
  - intros xs Hne Hnan.
    exact (@mode_on_equivalence float _ (fun x => is_nan x = false)
             float_eq_refl
             (fun a b _ _ => @float_eq_sym a b)
             (fun a b c _ _ _ => @float_eq_trans a b c)
             xs Hne Hnan).
  - intros xs Hne.
    destruct (@mode_on_equivalence R _ (fun _ => True)) with (xs := xs)
      as (ms & Hm & Hms & Hd & Hmax); try assumption.
    + intros a _. cbn. destruct (Req_dec_T a a); congruence.
    + intros a b _ _. cbn. destruct (Req_dec_T a b), (Req_dec_T b a); congruence.
    + intros a b c _ _ _. cbn.
      destruct (Req_dec_T a b), (Req_dec_T b c), (Req_dec_T a c); congruence.
    + apply Forall_forall. trivial.
    + exists ms. repeat split; try assumption; try (now apply Hmax).
      now apply distinct_R_NoDup.
Qed.

(** ** Where floating point and Python indexing part from the specification *)

Section FloatCounterexamples.
Local Open Scope float_scope.

(** Against C2: index -1 is outside [0, 2), yet [get_row] returns the last row;
    and the empty matrix has no column 5, yet [get_column] returns the
    empty vector. *)
Lemma index_counterexample :
  let A := [[1; 2]; [3; 4]] in
  (~ (0 <= -1 < Z.of_nat (length A))%Z /\ get_row A (-1) = Ok [3; 4]) /\
  (~ (0 <= 5 < Z.of_nat (snd (shape (@nil (list float)))))%Z /\
   get_column (@nil (list float)) 5 = Ok []).
Proof.
  cbn zeta. split; (split; [cbn; lia|reflexivity]).
Qed.

(** Against C5: with [v = [0, 0]], [u = [1, 1]] and [w = [4, 4]] the distance
    from [v] to [w] is greater than the sum of the other two. *)
Lemma triangle_counterexample :
  distance [0; 0] [4; 4] = Ok 5.6568542494923806 /\
  distance [0; 0] [1; 1] = Ok 1.4142135623730951 /\
  distance [1; 1] [4; 4] = Ok 4.2426406871192848 /\
  (5.6568542494923806 <=? 1.4142135623730951 + 4.2426406871192848) = false.
Proof. vm_compute. auto. Qed.

(** Against C6: [(0.1 + 0.2) - 0.2] is not [0.1]. *)
Lemma round_trip_counterexample :
  add [0.1] [0.2] = Ok [0.30000000000000004] /\
  subtract [0.30000000000000004] [0.2] = Ok [0.10000000000000003] /\
  (0.10000000000000003 =? 0.1) = false.
Proof. vm_compute. auto. Qed.

(** Against C7: the square of [1e-200] underflows to 0, so the magnitude of a
    vector with a non-zero element is 0. *)
Lemma magnitude_counterexample :
  magnitude [1e-200] = Ok 0 /\ (1e-200 =? 0) = false.
Proof. vm_compute. auto. Qed.
End FloatCounterexamples.

(** ** The theorems at concrete inputs *)

Section Instances.

Lemma length_preserved_witness :
  ((exists r, add [1; 2]%float [3; 4]%float = Ok r /\ length r = 2%nat) /\
   (exists r, subtract [1; 2]%float [3; 4]%float = Ok r /\ length r = 2%nat)) /\
  (exists r, vector_sum [[1; 2]; [3; 4]]%float = Ok r /\ length r = 2%nat).
Proof.
  destruct (@length_preserved float _) as (Hbin & _ & Hsum). split.
  - apply (Hbin [1; 2]%float [3; 4]%float). reflexivity.
  - apply (Hsum [1; 2]%float [[3; 4]]%float).
    intros v [<-|[]]. reflexivity.
Defined.

Lemma vector_mean_spec_witness :
  vector_mean [[1; 2]; [3; 4]]%float = Ok [2; 3]%float /\
  exists m, vector_mean [[1; 2]; [3; 4]]%R = Ok m /\
            nth_error m 0 = Some 2%R /\ nth_error m 1 = Some 3%R.
Proof.
  destruct vector_mean_spec as [Hgen Hreal]. split.
  - destruct (proj2 (Hgen float _) [1; 2]%float [[3; 4]]%float)
      as (total & m & _ & Hm & _ & _ & Hlen & Hnth).
    { intros v [<-|[]]. reflexivity. }
    rewrite Hm. f_equal.
    destruct (Hnth 0%nat) as [_ H0]; [cbn; lia|].
    destruct (Hnth 1%nat) as [_ H1]; [cbn; lia|].
    destruct m as [|a [|b [|c m]]]; try discriminate Hlen.
    assert (E0 : Some a = Some 2%float).
    { etransitivity; [exact H0|]. vm_compute. reflexivity. }
    assert (E1 : Some b = Some 3%float).
    { etransitivity; [exact H1|]. vm_compute. reflexivity. }
    injection E0 as ->. injection E1 as ->. reflexivity.
  - destruct (Hreal [1; 2]%R [[3; 4]]%R) as (m & Hm & _ & Hnth).
    { intros v [<-|[]]. reflexivity. }
    exists m. split; [exact Hm|]. split.
    + rewrite (Hnth 0%nat) by (cbn; lia). f_equal. cbn. lra.
    + rewrite (Hnth 1%nat) by (cbn; lia). f_equal. cbn. lra.
Defined.

Lemma get_row_get_column_index_errors_witness :
  get_row [[1; 2]; [3; 4]]%float (-2) = Ok [1; 2]%float /\
  (get_column [[1; 2]; [3; 4]]%float 2 = Raise IndexError <->
   (2 <= 2 \/ 2 < - 2)%Z) /\
  get_column [[1; 2]; [3; 4]]%float (-1) = Ok [2; 4]%float.
Proof.
  destruct (@get_row_get_column_index_errors float _) as (Hrow & Hcol & _).
  split.
  { apply (proj2 (Hrow [[1; 2]; [3; 4]]%float (-2)%Z)). cbn. lia. }
  assert (Hne : [[1; 2]; [3; 4]]%float <> []) by discriminate.
  assert (Hrect : forall A_i, In A_i [[1; 2]; [3; 4]]%float -> length A_i = 2%nat).
  { intros A_i [<-|[<-|[]]]; reflexivity. }
  split.
  - apply (proj1 (Hcol [[1; 2]; [3; 4]]%float 2%nat 2%Z Hne Hrect)).
  - apply (proj2 (Hcol [[1; 2]; [3; 4]]%float 2%nat (-1)%Z Hne Hrect)). cbn. lia.
Defined.

Lemma quantile_spec_witness :
  quantile quantile_list 0.25%float = Ok 3%float /\
  quantile quantile_list 1%float = Raise IndexError /\
  (exists (k : nat) (s : list R) (q : R),
     (INR k <= (1 / 2) * INR (length [3; 1]) < INR k + 1)%R /\
     (k < length [3; 1]%R)%nat /\
     Permutation s [3; 1]%R /\ StronglySorted Rle s /\
     nth_error s k = Some q /\
     quantile [3; 1]%R (1 / 2)%R = Ok q) /\
  quantile [3; 1]%R 1%R = Raise IndexError.
Proof.
  destruct quantile_spec as (_ & Hfloat & Hreal).
  assert (Hne : [3; 1]%R <> []) by discriminate.
  assert (Hnef : quantile_list <> []) by discriminate.
  assert (Hlen : (Z.of_nat (length quantile_list) < 2 ^ 53)%Z) by (cbn; lia).
  split; [|split; [|split]].
  - destruct (proj1 (Hfloat quantile_list 0.25%float Hnef Hlen))
      as (k & q & Hk & _ & _ & _ & _ & Hq & Hquant);
      [vm_compute; reflexivity|vm_compute; reflexivity|].
    assert (Hc : to_int (fmul 0.25%float (of_int (Z.of_nat (length quantile_list))))
                 = Ok 2%Z) by (vm_compute; reflexivity).
    rewrite Hc in Hk. injection Hk as Hk.
    assert (Hk2 : k = 2%nat) by lia. subst k.
    assert (Hc2 : nth_error (sorted quantile_list) 2 = Some 3%float)
      by (vm_compute; reflexivity).
    rewrite Hc2 in Hq. injection Hq as <-. exact Hquant.
  - apply (proj2 (proj2 (Hfloat quantile_list 1%float Hnef Hlen))).
  - apply (proj1 (Hreal [3; 1]%R (1 / 2)%R Hne)). lra.
  - apply (proj2 (proj2 (Hreal [3; 1]%R 1%R Hne))).
Defined.

Lemma mean_spec_witness :
  mean [1; 2; 3]%float = Ok (fdiv (py_sum [1; 2; 3]%float) (of_int 3)) /\
  mean [1; 2; 3]%R = Ok (Rsum [1; 2; 3] / INR 3)%R.
Proof.
  destruct mean_spec as [Hgen Hreal]. split.
  - apply (proj2 (Hgen float _) [1; 2; 3]%float). discriminate.
  - apply (Hreal [1; 2; 3]%R). discriminate.
Defined.

Lemma distance_triangle_witness :
  exists dvw dvu duw,
    distance [0; 0]%R [4; 4]%R = Ok dvw /\
    distance [0; 0]%R [1; 1]%R = Ok dvu /\
    distance [1; 1]%R [4; 4]%R = Ok duw /\
    (dvw <= dvu + duw)%R.
Proof.
  apply (@distance_triangle [0; 0]%R [4; 4]%R [1; 1]%R); reflexivity.
Defined.

Lemma subtract_add_round_trip_witness :
  exists s, add [1 / 10]%R [2 / 10]%R = Ok s /\ subtract s [2 / 10]%R = Ok [1 / 10]%R.
Proof.
  apply (@subtract_add_round_trip [1 / 10]%R [2 / 10]%R). reflexivity.
Defined.

Lemma magnitude_nonneg_zero_witness :
  PrimFloat.ltb 5%float 0 = false /\
  magnitude [0; -0]%float = Ok 0%float /\
  (exists m, magnitude [3; 4]%R = Ok m /\ (0 <= m)%R /\
             (m = 0%R <-> Forall (fun a => a = 0%R) [3; 4]%R)).
Proof.
  destruct magnitude_nonneg_zero as [Hfloat Hreal].
  split; [|split].
  - apply (proj1 (Hfloat [3; 4]%float) 5%float). vm_compute. reflexivity.
  - apply (proj2 (Hfloat [0; -0]%float)).
    repeat constructor.
  - apply (Hreal [3; 4]%R).
Defined.

Lemma median_spec_witness :
  (exists m, nth_error (sorted [1; 10; 2; 9; 5]%float) 2 = Some m /\
             median [1; 10; 2; 9; 5]%float = Ok m) /\
  (exists lo hi,
     nth_error (sorted [1; 9; 2; 10]%float) 1 = Some lo /\
     nth_error (sorted [1; 9; 2; 10]%float) 2 = Some hi /\
     median [1; 9; 2; 10]%float = Ok (fdiv (fadd lo hi) (of_int 2))) /\
  (exists st',
     Refs.median 0%nat [[1; 9; 2; 10]%float] =
     (median [1; 9; 2; 10]%float, st') /\
     forall r, (r < 1)%nat ->
               Refs.contents st' r = Refs.contents [[1; 9; 2; 10]%float] r).
Proof.
  destruct median_spec as (Hgen & _ & _).
  destruct (Hgen float _) as (Hodd & Heven & _ & Hstore).
  split; [|split].
  - apply (Hodd [1; 10; 2; 9; 5]%float). exists 2%nat. reflexivity.
  - apply (Heven [1; 9; 2; 10]%float); [discriminate|]. exists 2%nat. reflexivity.
  - apply (Hstore [[1; 9; 2; 10]%float] 0%nat). cbn. lia.
Defined.

Lemma mode_spec_witness :
  (exists ms,
     mode [1; 2; 2]%float = Ok ms /\ ms <> [] /\
     ForallOrdPairs (fun a b => PrimFloat.eqb a b = false) ms /\
     forall m, In m ms ->
       In m [1; 2; 2]%float /\
       forall y, In y [1; 2; 2]%float ->
         (occurrences y [1; 2; 2]%float <= occurrences m [1; 2; 2]%float)%nat) /\
  (exists ms,
     mode [1; 2; 2]%R = Ok ms /\ ms <> [] /\ NoDup ms /\
     forall m, In m ms ->
       In m [1; 2; 2]%R /\
       forall y, In y [1; 2; 2]%R ->
         (occurrences y [1; 2; 2]%R <= occurrences m [1; 2; 2]%R)%nat).
Proof.
  destruct mode_spec as [Hfloat Hreal]. split.
  - apply (Hfloat [1; 2; 2]%float); [discriminate|].
    repeat constructor.
  - apply (Hreal [1; 2; 2]%R). discriminate.
Defined.
End Instances.

(** * Further properties of the code *)

(** ** algebra.py: what the assertions let through *)

Section AlgebraErrors.
Context {S : Type} `{Scalar S}.

Lemma same_length_dec (v0 : list S) (vs : list (list S)) :
  forallb (fun v => (length v =? length v0)%nat) (v0 :: vs) = true <->
  (forall v, In v vs -> length v = length v0).
Proof.
  cbn [forallb]. rewrite Nat.eqb_refl. cbn [andb]. rewrite forallb_forall. split.
  - intros Hall v Hv. apply Nat.eqb_eq. auto.
  - intros Hall v Hv. apply Nat.eqb_eq. auto.
Qed.

Lemma vector_sum_unequal (v0 : list S) (vs : list (list S)) :
  ~ (forall v, In v vs -> length v = length v0) ->
  vector_sum (v0 :: vs) = Raise (AssertionError "vectors must be the same length"%string).
Proof.
  intros Hne. unfold vector_sum.
  destruct (forallb (fun v => (length v =? length v0)%nat) (v0 :: vs)) eqn:E;
    [|reflexivity].
  exfalso. apply Hne. now apply same_length_dec.
Qed.

(** [add], [subtract] and [dot] return exactly when the two vectors
    are of one length; otherwise each raises its [AssertionError], and
    [distance] passes on the one of [subtract]. *)
Theorem binary_operations_assert_length (v w : list S) :
  (length v = length w ->
   exists r s d, add v w = Ok r /\ subtract v w = Ok s /\ dot v w = Ok d) /\
  (length v <> length w ->
   add v w = Raise (AssertionError "both vectors must have the same length"%string) /\
   subtract v w = Raise (AssertionError "both vectors must have the same length"%string) /\
   dot v w = Raise (AssertionError "vectors must be the same length"%string) /\
   distance v w = Raise (AssertionError "both vectors must have the same length"%string)).
Proof.
  split.
  - intros E. do 3 eexists. unfold add, subtract, dot.
    rewrite E, Nat.eqb_refl. repeat split.
  - intros Hne. apply Nat.eqb_neq in Hne.
    unfold distance, add, subtract, dot. rewrite Hne. repeat split.
Qed.

(** [vector_sum] raises on the empty list and on a list whose vectors
    are not all as long as the first, each with its own message, and
    never an [IndexError]; otherwise its element [i] is the [sum] of
    the elements [i] of the vectors, in their order. *)
Theorem vector_sum_result :
  vector_sum (@nil (list S)) = Raise (AssertionError "no vectors provided"%string) /\
  (forall (v0 : list S) (vs : list (list S)),
     ((forall v, In v vs -> length v = length v0) ->
      vector_sum (v0 :: vs) =
      Ok (map (fun i => py_sum (column (v0 :: vs) i)) (seq 0 (length v0)))) /\
     (~ (forall v, In v vs -> length v = length v0) ->
      vector_sum (v0 :: vs) =
      Raise (AssertionError "vectors must be the same length"%string))).
Proof.
  split; [reflexivity|]. intros v0 vs. split.
  - apply vector_sum_equal_length.
  - apply vector_sum_unequal.
Qed.

(** [vector_mean] on a non-empty list raises what [vector_sum] raises;
    on vectors of one length its element [i] is [1/n] times the [sum]
    of the elements [i], and it is as long as the first vector. *)
Theorem vector_mean_result (v0 : list S) (vs : list (list S)) :
  ((forall v, In v vs -> length v = length v0) ->
   exists m,
     vector_mean (v0 :: vs) = Ok m /\ length m = length v0 /\
     forall i, (i < length v0)%nat ->
       nth_error m i =
       Some (fmul (fdiv (of_int 1) (of_int (Z.of_nat (length (v0 :: vs)))))
                  (py_sum (column (v0 :: vs) i)))) /\
  (~ (forall v, In v vs -> length v = length v0) ->
   vector_mean (v0 :: vs) =
   Raise (AssertionError "vectors must be the same length"%string)).
Proof.
  assert (Hn : (Z.of_nat (length (v0 :: vs)) =? 0)%Z = false).
  { apply Z.eqb_neq. cbn [length]. lia. }
  split.
  - intros Hlen. eexists. split; [|split].
    + unfold vector_mean, truediv, Vector. cbv zeta. rewrite Hn. cbn [bind].
      rewrite (vector_sum_equal_length _ _ Hlen). cbn [bind]. reflexivity.
    + unfold scalar_multiply. now rewrite !length_map, length_seq.
    + intros i Hi. unfold scalar_multiply.
      rewrite nth_error_map, nth_error_map.
      rewrite nth_error_seq. destruct (Nat.ltb_spec i (length v0)); [|lia].
      reflexivity.
  - intros Hne. unfold vector_mean, truediv, Vector. cbv zeta. rewrite Hn. cbn [bind].
    now rewrite (@vector_sum_unequal v0 vs Hne).
Qed.
End AlgebraErrors.

(** ** algebra.py: matrices *)

Section MatrixFacts.
Context {S : Type} `{Scalar S}.

Lemma make_matrix_row (num_rows num_cols : nat) (entry_fn : nat -> nat -> S) (i : nat) :
  (i < num_rows)%nat ->
  nth_error (make_matrix num_rows num_cols entry_fn) i =
  Some (map (fun j => entry_fn i j) (seq 0 num_cols)).
Proof.
  intros Hi. unfold make_matrix. rewrite nth_error_map, nth_error_seq.
  destruct (Nat.ltb_spec i num_rows); [reflexivity|lia].
Qed.

Lemma make_matrix_rows_length (num_rows num_cols : nat) (entry_fn : nat -> nat -> S) :
  forall A_i, In A_i (make_matrix num_rows num_cols entry_fn) -> length A_i = num_cols.
Proof.
  intros A_i Hin. unfold make_matrix in Hin. apply in_map_iff in Hin.
  destruct Hin as (i & <- & _). now rewrite length_map, length_seq.
Qed.

Lemma row_entry (num_cols : nat) (g : nat -> S) (j : nat) :
  (j < num_cols)%nat ->
  py_index (map g (seq 0 num_cols)) (Z.of_nat j) = Ok (g j).
Proof.
  intros Hj. apply py_index_nonneg. rewrite nth_error_map, nth_error_seq.
  destruct (Nat.ltb_spec j num_cols); [reflexivity|lia].
Qed.

Lemma mapM_map {X Y Z : Type} (f : Y -> result Z) (g : X -> Y) (xs : list X) :
  mapM f (map g xs) = mapM (fun x => f (g x)) xs.
Proof.
  induction xs as [|x xs IH]; cbn; [reflexivity|]. now rewrite IH.
Qed.

Lemma make_matrix_column (num_rows num_cols : nat) (entry_fn : nat -> nat -> S) (j : nat) :
  (j < num_cols)%nat ->
  get_column (make_matrix num_rows num_cols entry_fn) (Z.of_nat j) =
  Ok (map (fun i => entry_fn i j) (seq 0 num_rows)).
Proof.
  intros Hj. unfold get_column, make_matrix. rewrite mapM_map.
  apply mapM_total. intros i _. now apply row_entry.
Qed.

(** A matrix built by [make_matrix] has [num_rows] rows of [num_cols]
    entries each; its [shape] is [(num_rows, num_cols)], but [(0, 0)]
    when there are no rows, whatever [num_cols] was. *)
Theorem make_matrix_shape (num_rows num_cols : nat) (entry_fn : nat -> nat -> S) :
  shape (make_matrix num_rows num_cols entry_fn) =
  (num_rows, match num_rows with O => O | _ => num_cols end) /\
  Forall (fun A_i => length A_i = num_cols) (make_matrix num_rows num_cols entry_fn).
Proof.
  split.
  - unfold shape. f_equal.
    + unfold make_matrix. now rewrite length_map, length_seq.
    + destruct num_rows as [|n]; [reflexivity|].
      unfold make_matrix. cbn [seq map]. now rewrite length_map, length_seq.
  - apply Forall_forall. apply make_matrix_rows_length.
Qed.

(** Entry [(i, j)] of [make_matrix num_rows num_cols entry_fn] is
    [entry_fn i j], read through [get_row] or through [get_column]. *)
Theorem make_matrix_entry
    (num_rows num_cols : nat) (entry_fn : nat -> nat -> S) (i j : nat) :
  (i < num_rows)%nat -> (j < num_cols)%nat ->
  (row <- get_row (make_matrix num_rows num_cols entry_fn) (Z.of_nat i) ;;
   py_index row (Z.of_nat j)) = Ok (entry_fn i j) /\
  (col <- get_column (make_matrix num_rows num_cols entry_fn) (Z.of_nat j) ;;
   py_index col (Z.of_nat i)) = Ok (entry_fn i j).
Proof.
  intros Hi Hj. split.
  - unfold get_row. rewrite (py_index_nonneg _ _ (make_matrix_row num_cols entry_fn Hi)).
    cbn [bind]. now apply row_entry.
  - rewrite (make_matrix_column num_rows entry_fn Hj). cbn [bind].
    now apply (row_entry (fun i => entry_fn i j)).
Qed.

(** [identity_matrix n] has 1 at [(i, i)] and 0 elsewhere, and it is
    symmetric: its column [k] is its row [k]. *)
Theorem identity_matrix_entries (n i j : nat) :
  (i < n)%nat -> (j < n)%nat ->
  (row <- get_row (identity_matrix n) (Z.of_nat i) ;; py_index row (Z.of_nat j)) =
  Ok (if (i =? j)%nat then of_int 1 else of_int 0) /\
  get_column (identity_matrix n) (Z.of_nat i) = get_row (identity_matrix n) (Z.of_nat i).
Proof.
  intros Hi Hj. unfold identity_matrix. split.
  - unfold get_row.
    rewrite (py_index_nonneg _ _ (make_matrix_row n _ Hi)). cbn [bind].
    now apply (row_entry (fun j => if (i =? j)%nat then of_int 1 else of_int 0)).
  - rewrite (make_matrix_column n _ Hi). unfold get_row.
    rewrite (py_index_nonneg _ _ (make_matrix_row n _ Hi)).
    f_equal. apply map_ext. intros k. now rewrite Nat.eqb_sym.
Qed.

Lemma mapM_Ok_nth {X Y : Type} (f : X -> result Y) (xs : list X) (ys : list Y) (k : nat) (x : X) :
  mapM f xs = Ok ys -> nth_error xs k = Some x ->
  exists y, nth_error ys k = Some y /\ f x = Ok y.
Proof.
  revert ys k. induction xs as [|a xs IH]; intros ys k Hm Hk.
  - destruct k; discriminate.
  - cbn in Hm. destruct (f a) as [b|] eqn:Ea; cbn in Hm; [|discriminate].
    destruct (mapM f xs) as [bs|] eqn:Em; cbn in Hm; [|discriminate].
    inversion Hm; subst. destruct k as [|k]; cbn in *.
    + inversion Hk; subst. now exists b.
    + now apply IH.
Qed.

Lemma mapM_Ok_length {X Y : Type} (f : X -> result Y) (xs : list X) (ys : list Y) :
  mapM f xs = Ok ys -> length ys = length xs.
Proof.
  revert ys. induction xs as [|a xs IH]; cbn; intros ys Hm.
  - now inversion Hm.
  - destruct (f a); cbn in Hm; [|discriminate].
    destruct (mapM f xs); cbn in Hm; [|discriminate].
    inversion Hm; subst. cbn. f_equal. now apply IH.
Qed.

(** Whenever [get_column] returns, it returns one entry per row, and
    entry [i] of column [j] is entry [j] of row [i]: on any matrix,
    rectangular or not. *)
Theorem get_column_transposes (A : list (list S)) (j : Z) (col : list S) :
  get_column A j = Ok col ->
  length col = length A /\
  forall (i : nat) (row : list S),
    get_row A (Z.of_nat i) = Ok row ->
    exists x, py_index row j = Ok x /\ py_index col (Z.of_nat i) = Ok x.
Proof.
  intros Hcol. split; [exact (mapM_Ok_length _ _ Hcol)|].
  intros i row Hrow. unfold get_row in Hrow.
  assert (Hnth : nth_error A i = Some row).
  { destruct (nth_error A i) as [r|] eqn:E.
    - apply py_index_nonneg in E. congruence.
    - apply nth_error_None in E.
      rewrite py_index_out_of_range in Hrow by lia. discriminate. }
  destruct (mapM_Ok_nth _ _ _ Hcol Hnth) as (x & Hx & Hrowj).
  exists x. split; [exact Hrowj|]. now apply py_index_nonneg.
Qed.

End MatrixFacts.

(** ** Float arithmetic *)

Lemma SFadd_comm (x y : spec_float) : SFadd prec emax x y = SFadd prec emax y x.
Proof.
  destruct x as [sx|sx| |sx mx ex], y as [sy|sy| |sy my ey]; cbn;
    try reflexivity; try (destruct sx, sy; reflexivity).
  now rewrite Z.min_comm, Z.add_comm.
Qed.

Lemma SFmul_comm (x y : spec_float) : SFmul prec emax x y = SFmul prec emax y x.
Proof.
  destruct x as [sx|sx| |sx mx ex], y as [sy|sy| |sy my ey]; cbn;
    try reflexivity; try (now rewrite xorb_comm).
  now rewrite xorb_comm, Pos.mul_comm, Z.add_comm.
Qed.

Lemma float_add_comm (a b : float) : PrimFloat.add a b = PrimFloat.add b a.
Proof. apply Prim2SF_inj. rewrite !add_spec. apply SFadd_comm. Qed.

Lemma float_mul_comm (a b : float) : PrimFloat.mul a b = PrimFloat.mul b a.
Proof. apply Prim2SF_inj. rewrite !mul_spec. apply SFmul_comm. Qed.

Lemma binary_round_sign (sx : bool) (mx : positive) (ex : Z) :
  match binary_round prec emax sx mx ex with
  | S754_zero s | S754_infinity s | S754_finite s _ _ => s = sx
  | S754_nan => True
  end.
Proof.
  unfold binary_round. destruct (shl_align mx ex _) as [mz ez].
  apply binary_round_aux_sign.
Qed.

Lemma SFadd_not_negative (x y : spec_float) :
  SFnot_negative x -> SFnot_negative y -> SFnot_negative (SFadd prec emax x y).
Proof.
  destruct x as [sx|[|]| |[|] mx ex], y as [sy|[|]| |[|] my ey]; cbn;
    try tauto; try (destruct sx; tauto); try (destruct sx, sy; tauto).
  intros _ _.
  match goal with
  | |- SFnot_negative (binary_round _ _ ?s ?m ?e) =>
      pose proof (binary_round_sign s m e) as Hs;
      destruct (binary_round prec emax s m e) as [s'|s'| |s' m' e']
  end; cbn in *; subst; exact I.
Qed.

Lemma SFsquare_not_negative (x : spec_float) : SFnot_negative (SFmul prec emax x x).
Proof.
  destruct x as [s|s| |s m e]; cbn; try exact I; try (destruct s; exact I).
  pose proof (binary_round_aux_sign (xorb s s) (Zpos (m * m)) (e + e) loc_Exact) as Hs.
  destruct (binary_round_aux prec emax (xorb s s) (Zpos (m * m)) (e + e) loc_Exact)
    as [s'|s'| |s' m' e']; cbn in *; subst; try exact I; now destruct s.
Qed.

Lemma SFnot_negative_not_lt_zero (x : spec_float) :
  SFnot_negative x -> SFltb x (S754_zero false) = false.
Proof. destruct x as [s|[|]| |[|] m e]; cbn; tauto || reflexivity. Qed.

(** ** algebra.py: symmetry *)

Section Pointwise.
Context {S : Type} `{Scalar S}.

Lemma pointwise_swap (f g : S -> S -> S) (v w : list S) :
  (forall a b, f a b = g b a) ->
  map (fun p => f (fst p) (snd p)) (combine v w) =
  map (fun p => g (fst p) (snd p)) (combine w v).
Proof.
  intros Hfg. revert w. induction v as [|a v IH]; intros [|b w]; cbn;
    try reflexivity.
  now rewrite Hfg, IH.
Qed.

Lemma add_swap (v w : list S) :
  (forall a b : S, fadd a b = fadd b a) -> add v w = add w v.
Proof.
  intros Hc. unfold add. rewrite (Nat.eqb_sym (length w)).
  destruct (length v =? length w)%nat; [|reflexivity].
  f_equal. now apply pointwise_swap.
Qed.

Lemma dot_swap (v w : list S) :
  (forall a b : S, fmul a b = fmul b a) -> dot v w = dot w v.
Proof.
  intros Hc. unfold dot. rewrite (Nat.eqb_sym (length w)).
  destruct (length v =? length w)%nat; [|reflexivity].
  do 2 f_equal. now apply pointwise_swap.
Qed.

Lemma distance_swap (v w : list S) :
  (forall a b : S, fmul (fsub a b) (fsub a b) = fmul (fsub b a) (fsub b a)) ->
  distance v w = distance w v.
Proof.
  intros Hsq. unfold distance, subtract. rewrite (Nat.eqb_sym (length w)).
  destruct (length v =? length w)%nat eqn:E; [|reflexivity].
  cbn [bind]. unfold magnitude, sum_of_squares, dot.
  rewrite !Nat.eqb_refl. cbn [bind]. do 2 f_equal.
  apply Nat.eqb_eq in E. clear -Hsq E.
  revert w E. induction v as [|a v IH]; intros [|b w] E; cbn in *;
    try reflexivity; try discriminate.
  rewrite Hsq. f_equal. apply IH. lia.
Qed.
End Pointwise.

Lemma SFabs_binary_round_aux (sx : bool) (mx ex : Z) (lx : location) :
  SFabs (binary_round_aux prec emax sx mx ex lx) =
  SFabs (binary_round_aux prec emax false mx ex lx).
Proof.
  unfold binary_round_aux.
  destruct (shr_fexp prec emax mx ex lx) as [mrs' e'].
  destruct (shr_fexp prec emax _ e' loc_Exact) as [mrs'' e''].
  destruct (shr_m mrs''); try reflexivity.
  destruct (Z.leb e'' (emax - prec)); reflexivity.
Qed.

Lemma SFabs_binary_normalize_opp (m e : Z) :
  SFabs (binary_normalize prec emax (- m) e false) =
  SFabs (binary_normalize prec emax m e false).
Proof.
  destruct m as [|p|p]; cbn [Z.opp binary_normalize]; try reflexivity;
    unfold binary_round; destruct (shl_align p e _) as [mz ez];
    [|symmetry]; apply SFabs_binary_round_aux.
Qed.

Lemma SFabs_SFsub_swap (x y : spec_float) :
  SFabs (SFsub prec emax x y) = SFabs (SFsub prec emax y x).
Proof.
  destruct x as [sx|sx| |sx mx ex], y as [sy|sy| |sy my ey]; cbn [SFsub SFabs];
    try reflexivity; try (destruct sx, sy; reflexivity).
  rewrite (Z.min_comm ey ex).
  rewrite <- SFabs_binary_normalize_opp. f_equal. f_equal. lia.
Qed.

Lemma SFmul_square_abs (x : spec_float) :
  SFmul prec emax x x = SFmul prec emax (SFabs x) (SFabs x).
Proof. destruct x as [s|s| |s m e]; cbn; try reflexivity; now destruct s. Qed.

Lemma float_square_difference (a b : float) :
  PrimFloat.mul (PrimFloat.sub a b) (PrimFloat.sub a b) =
  PrimFloat.mul (PrimFloat.sub b a) (PrimFloat.sub b a).
Proof.
  apply Prim2SF_inj. rewrite !mul_spec, !sub_spec. unfold SF64mul, SF64sub.
  rewrite (SFmul_square_abs (SFsub prec emax (Prim2SF a) (Prim2SF b))).
  rewrite (SFmul_square_abs (SFsub prec emax (Prim2SF b) (Prim2SF a))).
  now rewrite SFabs_SFsub_swap.
Qed.

(** [add] is commutative, on floats as in exact arithmetic: [add v w]
    and [add w v] are the same vector, or the same error. *)
Theorem add_commutative :
  (forall v w : list float, add v w = add w v) /\
  (forall v w : list R, add v w = add w v).
Proof.
  split; intros v w; apply add_swap.
  - exact float_add_comm.
  - exact Rplus_comm.
Qed.

(** [dot] is symmetric, on floats as in exact arithmetic. *)
Theorem dot_symmetric :
  (forall v w : list float, dot v w = dot w v) /\
  (forall v w : list R, dot v w = dot w v).
Proof.
  split; intros v w; apply dot_swap.
  - exact float_mul_comm.
  - exact Rmult_comm.
Qed.

(** [distance] is symmetric, on floats as in exact arithmetic: the
    square of [a - b] is the square of [b - a], rounding included. *)
Theorem distance_symmetric :
  (forall v w : list float, distance v w = distance w v) /\
  (forall v w : list R, distance v w = distance w v).
Proof.
  split; intros v w; apply distance_swap.
  - exact float_square_difference.
  - intros a b. cbn. ring.
Qed.

(** ** algebra.py: [math.sqrt] never sees a negative sum of squares *)

Lemma float_fold_add_not_negative (xs : list float) (a : float) :
  SFnot_negative (Prim2SF a) ->
  Forall (fun x => SFnot_negative (Prim2SF x)) xs ->
  SFnot_negative (Prim2SF (fold_left PrimFloat.add xs a)).
Proof.
  intros Ha Hxs. revert a Ha. induction Hxs as [|x xs Hx _ IH]; intros a Ha; cbn.
  - exact Ha.
  - apply IH. rewrite add_spec. now apply SFadd_not_negative.
Qed.

Lemma float_squares_not_negative (v : list float) :
  Forall (fun x => SFnot_negative (Prim2SF x))
         (map (fun p => PrimFloat.mul (fst p) (snd p)) (combine v v)).
Proof.
  induction v as [|a v IH]; cbn; constructor; [|exact IH].
  rewrite mul_spec. apply SFsquare_not_negative.
Qed.

Lemma float_sum_of_squares (v : list float) :
  exists ss, sum_of_squares v = Ok ss /\ PrimFloat.ltb ss 0 = false.
Proof.
  unfold sum_of_squares, dot. rewrite Nat.eqb_refl. eexists. split; [reflexivity|].
  rewrite ltb_spec. change (Prim2SF 0) with (S754_zero false).
  apply SFnot_negative_not_lt_zero.
  apply float_fold_add_not_negative; [exact I|].
  apply float_squares_not_negative.
Qed.

(** On floats, whatever the elements (NaNs and infinities included),
    the sum of squares is never below zero, so [magnitude] never
    raises, and [distance] raises only when the lengths differ. *)
Theorem magnitude_never_raises :
  (forall v : list float,
     exists ss m,
       sum_of_squares v = Ok ss /\ PrimFloat.ltb ss 0 = false /\
       magnitude v = Ok m) /\
  (forall v w : list float,
     length v = length w -> exists d, distance v w = Ok d).
Proof.
  assert (Hmag : forall v : list float, exists m, magnitude v = Ok m).
  { intros v. destruct (float_sum_of_squares v) as (ss & Hss & Hlt).
    unfold magnitude. rewrite Hss. cbn [bind]. unfold math_sqrt.
    change (flt ss (of_int 0)) with (PrimFloat.ltb ss 0). rewrite Hlt.
    eexists. reflexivity. }
  split.
  - intros v. destruct (float_sum_of_squares v) as (ss & Hss & Hlt).
    destruct (Hmag v) as [m Hm]. now exists ss, m.
  - intros v w E. unfold distance. rewrite (subtract_equal_length v w E).
    cbn [bind]. apply Hmag.
Qed.

(** ** statistics.py: empty samples, indices, results *)

Section StatisticsEdges.
Context {S : Type} `{Scalar S}.

Lemma sorted_nth_In (xs : list S) (k : nat) (x : S) :
  nth_error (sorted xs) k = Some x -> In x xs.
Proof.
  intros Hk. apply (Permutation_in x (sorted_Permutation xs)).
  now apply nth_error_In with k.
Qed.

Lemma py_index_In {X : Type} (l : list X) (i : Z) (x : X) :
  py_index l i = Ok x -> In x l.
Proof.
  unfold py_index. destruct ((0 <=? _) && _)%Z; [|discriminate].
  destruct (nth_error l _) as [y|] eqn:E; [|discriminate].
  intros Hx. inversion Hx; subst. now apply nth_error_In in E.
Qed.

(** [median] raises exactly on the empty sample, and then an
    [IndexError]; on a sample of odd count the median is one of its
    elements. *)
Theorem median_result :
  median (@nil S) = Raise IndexError /\
  (forall xs : list S, xs <> [] ->
     exists m, median xs = Ok m /\ (Nat.Odd (length xs) -> In m xs)).
Proof.
  split; [reflexivity|].
  intros xs Hne. destruct (Nat.Even_or_Odd (length xs)) as [Heven|Hodd].
  - destruct (median_even_count Hne Heven) as (lo & hi & _ & _ & Hm).
    eexists. split; [exact Hm|].
    intros Hodd. exfalso. apply (Nat.Even_Odd_False _ Heven Hodd).
  - destruct (median_odd_count xs Hodd) as (m & Hnth & Hm).
    exists m. split; [exact Hm|]. intros _. now apply sorted_nth_In with (length xs / 2)%nat.
Qed.

(** [quantile] with the index [k = int(p * len(xs))]: it raises
    [IndexError] exactly when [k >= len(xs)] or [k < -len(xs)]; a
    negative [k] from [-len(xs)] on is not refused but counts from the
    largest element down; whatever [quantile] returns is an element of
    the sample; and when [int] raises, [quantile] raises the same. *)
Theorem quantile_result (xs : list S) (p : S) :
  (forall k : Z,
     to_int (fmul p (of_int (Z.of_nat (length xs)))) = Ok k ->
     (quantile xs p = Raise IndexError <->
      (Z.of_nat (length xs) <= k \/ k < - Z.of_nat (length xs))%Z) /\
     ((- Z.of_nat (length xs) <= k < 0)%Z ->
      exists q, nth_error (sorted xs) (Z.to_nat (Z.of_nat (length xs) + k)) = Some q /\
                quantile xs p = Ok q)) /\
  (forall e : exn,
     to_int (fmul p (of_int (Z.of_nat (length xs)))) = Raise e ->
     quantile xs p = Raise e) /\
  (forall q : S, quantile xs p = Ok q -> In q xs).
Proof.
  split; [|split].
  - intros k Hk. unfold quantile. rewrite Hk. cbn [bind]. split.
    + rewrite py_index_raise_iff, sorted_length. intuition.
    + intros Hneg.
      assert (Hlt : (Z.to_nat (Z.of_nat (length xs) + k) < length (sorted xs))%nat)
        by (rewrite sorted_length; lia).
      apply nth_error_Some in Hlt.
      destruct (nth_error (sorted xs) _) as [q|] eqn:Hq; [|congruence].
      exists q. split; [reflexivity|].
      apply py_index_from_end in Hq. rewrite sorted_length in Hq.
      replace (Z.of_nat (Z.to_nat (Z.of_nat (length xs) + k)) - Z.of_nat (length xs))%Z
        with k in Hq by lia.
      exact Hq.
  - intros e He. unfold quantile. now rewrite He.
  - intros q. unfold quantile.
    destruct (to_int _) as [k|e]; cbn [bind]; [|discriminate].
    intros Hq. apply py_index_In in Hq.
    apply (Permutation_in q (sorted_Permutation xs) Hq).
Qed.

Lemma counter_incr_not_empty (x : S) (counts : list (S * nat)) :
  counter_incr x counts <> [].
Proof. destruct counts as [|[k c] rest]; cbn; [|destruct (feq k x)]; discriminate. Qed.

Lemma Counter_not_empty (xs : list S) : xs <> [] -> Counter xs <> [].
Proof.
  induction xs as [|x xs _] using rev_ind; [congruence|]. intros _.
  rewrite Counter_snoc. apply counter_incr_not_empty.
Qed.

Lemma Counter_keys_In (xs : list S) (k : S) :
  In k (map fst (Counter xs)) -> In k xs.
Proof.
  induction xs as [|x xs IH] using rev_ind; [cbn; tauto|].
  rewrite Counter_snoc. intros Hk. apply in_or_app.
  destruct (counter_incr_keys _ _ _ Hk) as [Hin| ->]; [left; auto|right; now left].
Qed.

Lemma counter_incr_total (x : S) (counts : list (S * nat)) :
  list_sum (map snd (counter_incr x counts)) = Datatypes.S (list_sum (map snd counts)).
Proof.
  unfold list_sum.
  induction counts as [|[k c] rest IH]; cbn [counter_incr]; [reflexivity|].
  destruct (feq k x); cbn [map snd fold_right]; [lia|]. rewrite IH. lia.
Qed.

Lemma Counter_positive (xs : list S) :
  Forall (fun kc => (1 <= snd kc)%nat) (Counter xs).
Proof.
  induction xs as [|x xs IH] using rev_ind; [constructor|].
  rewrite Counter_snoc. now apply counter_incr_positive.
Qed.

Lemma positive_counts_length (counts : list (S * nat)) :
  Forall (fun kc => (1 <= snd kc)%nat) counts ->
  (length counts <= list_sum (map snd counts))%nat.
Proof.
  unfold list_sum.
  induction 1 as [|[k c] rest Hc _ IH]; cbn [length map snd fold_right] in *; lia.
Qed.

(** Whatever [==] does on the values, NaNs included: the counts of
    [Counter(xs)] add up to [len(xs)], each count is at least 1, every
    key is an element of [xs], and there are at most [len(xs)] keys. *)
Theorem Counter_counts (xs : list S) :
  list_sum (map snd (Counter xs)) = length xs /\
  Forall (fun kc => In (fst kc) xs /\ (1 <= snd kc)%nat) (Counter xs) /\
  (length (Counter xs) <= length xs)%nat.
Proof.
  assert (Htotal : list_sum (map snd (Counter xs)) = length xs).
  { induction xs as [|x xs IH] using rev_ind; [reflexivity|].
    rewrite Counter_snoc, counter_incr_total, IH, length_app. cbn. lia. }
  pose proof (Counter_positive xs) as Hpos.
  split; [exact Htotal|]. split.
  - apply Forall_forall. intros [k c] Hin. split.
    + apply Counter_keys_In. apply in_map_iff. now exists (k, c).
    + rewrite Forall_forall in Hpos. now apply (Hpos (k, c)).
  - rewrite <- Htotal. now apply positive_counts_length.
Qed.

(** [mode] raises exactly on the empty sample, and then the
    [ValueError] of [max]; on any other sample, NaNs included, it
    returns a non-empty list of elements of the sample. *)
Theorem mode_result :
  mode (@nil S) = Raise ValueError /\
  (forall xs : list S, xs <> [] ->
     exists ms, mode xs = Ok ms /\ ms <> [] /\ forall m, In m ms -> In m xs).
Proof.
  split; [reflexivity|]. intros xs Hne.
  assert (Hcne : map snd (Counter xs) <> []).
  { pose proof (Counter_not_empty Hne) as Hc.
    destruct (Counter xs); [congruence|discriminate]. }
  destruct (py_max_spec Hcne) as (M & HM & HMin & _).
  unfold mode. rewrite HM. cbn [bind]. eexists. split; [reflexivity|]. split.
  - apply in_map_iff in HMin. destruct HMin as ([k c] & Hc & Hin). cbn in Hc. subst c.
    intros E.
    assert (Hk : In k (map fst (filter (fun kc => (snd kc =? M)%nat) (Counter xs)))).
    { apply in_map_iff. exists (k, M). split; [reflexivity|].
      apply filter_In. split; [assumption|]. apply Nat.eqb_refl. }
    rewrite E in Hk. destruct Hk.
  - intros m Hm. apply Counter_keys_In.
    apply in_map_iff in Hm. destruct Hm as (kc & <- & Hkc).
    apply filter_In in Hkc. apply in_map. tauto.
Qed.
End StatisticsEdges.

(** ** statistics.py: [Counter] lookups and the mode of a mode *)

Section CounterFacts.
Context {S : Type} `{Scalar S}.

Lemma ForallOrdPairs_snoc {X : Type} (R : X -> X -> Prop) (l : list X) (x : X) :
  ForallOrdPairs R (l ++ [x]) -> ForallOrdPairs R l /\ Forall (fun a => R a x) l.
Proof.
  induction l as [|a l IH]; cbn; intros Hp.
  - split; constructor.
  - inversion Hp as [|? ? Ha Hl]; subst. destruct (IH Hl) as [Hl' Hx].
    apply Forall_app in Ha. destruct Ha as [Hal Hax].
    split; constructor; try assumption. now inversion Hax.
Qed.

Lemma counter_incr_new (x : S) (counts : list (S * nat)) :
  Forall (fun k => feq k x = false) (map fst counts) ->
  counter_incr x counts = counts ++ [(x, 1%nat)].
Proof.
  induction counts as [|[k c] rest IH]; cbn; intros Hk; [reflexivity|].
  inversion Hk as [|? ? Hkx Hrest]; subst. rewrite Hkx. now rewrite IH.
Qed.

Lemma Counter_of_distinct (ms : list S) :
  ForallOrdPairs (fun a b => feq a b = false) ms ->
  Counter ms = map (fun m => (m, 1%nat)) ms.
Proof.
  induction ms as [|x ms IH] using rev_ind; intros Hd; [reflexivity|].
  apply ForallOrdPairs_snoc in Hd. destruct Hd as [Hms Hx].
  rewrite Counter_snoc, (IH Hms), map_app. cbn [map].
  apply counter_incr_new. rewrite map_map. cbn [fst]. now rewrite map_id.
Qed.

Lemma max_of_ones (ms : list S) (n : nat) :
  fold_left Nat.max (map snd (map (fun m : S => (m, 1%nat)) ms)) (Datatypes.S n)
  = Datatypes.S n.
Proof.
  revert n. induction ms as [|m ms IH]; intros n; cbn [fold_left map snd];
    [reflexivity|].
  replace (Nat.max (Datatypes.S n) 1) with (Datatypes.S n) by lia. apply IH.
Qed.

(** A list of values no two of which are [==] is its own mode. *)
Lemma mode_of_distinct (ms : list S) :
  ms <> [] -> ForallOrdPairs (fun a b => feq a b = false) ms -> mode ms = Ok ms.
Proof.
  intros Hne Hd. unfold mode. rewrite (Counter_of_distinct Hd).
  destruct ms as [|m ms]; [congruence|].
  cbn [map snd py_max]. rewrite (max_of_ones ms 0). cbn [bind]. f_equal.
  change ((m, 1%nat) :: map (fun m0 : S => (m0, 1%nat)) ms)
    with (map (fun m0 : S => (m0, 1%nat)) (m :: ms)).
  generalize (m :: ms). intros l. induction l as [|a l IH]; cbn; [reflexivity|].
  now rewrite IH.
Qed.
End CounterFacts.

Lemma occurrences_R (k : R) (xs : list R) :
  occurrences k xs = count_occ Req_dec_T xs k.
Proof.
  unfold occurrences. induction xs as [|x xs IH]; [reflexivity|].
  cbn [filter count_occ feq R_scalar] in *.
  destruct (Req_dec_T k x) as [E|Hne], (Req_dec_T x k) as [E'|Hne'];
    try congruence; cbn [length]; now rewrite IH.
Qed.

Lemma counter_get_R (xs : list R) (k : R) :
  counter_get (Counter xs) k = count_occ Req_dec_T xs k.
Proof.
  rewrite <- occurrences_R.
  destruct (@Counter_spec R _ (fun _ => True)) with (xs := xs)
    as (_ & _ & _ & Hget).
  - intros a b _ _. cbn. destruct (Req_dec_T a b), (Req_dec_T b a); congruence.
  - intros a b c _ _ _. cbn.
    destruct (Req_dec_T a b), (Req_dec_T b c), (Req_dec_T a c); congruence.
  - apply Forall_forall. trivial.
  - now apply Hget.
Qed.

(** [counts[k]] for [counts = Counter(xs)] is the number of elements of
    [xs] that are [==] to [k], and so 0 for a value that is not there:
    on floats when no NaN is involved, and on the reals. *)
Theorem Counter_lookup :
  (forall (xs : list float) (k : float),
     Forall (fun x => is_nan x = false) xs -> is_nan k = false ->
     counter_get (Counter xs) k = occurrences k xs) /\
  (forall (xs : list R) (k : R),
     counter_get (Counter xs) k = count_occ Req_dec_T xs k).
Proof.
  split.
  - intros xs k Hxs Hk.
    destruct (@Counter_spec float _ (fun x => is_nan x = false)
                (fun a b _ _ => @float_eq_sym a b)
                (fun a b c _ _ _ => @float_eq_trans a b c) xs Hxs)
      as (_ & _ & _ & Hget).
    now apply Hget.
  - intros xs k. apply counter_get_R.
Qed.

(** The mode of a mode is that mode: when [mode xs] returns [ms],
    [mode ms] returns [ms] again; on floats for a sample without a NaN,
    and on the reals. *)
Theorem mode_idempotent :
  (forall xs ms : list float,
     Forall (fun x => is_nan x = false) xs ->
     mode xs = Ok ms -> mode ms = Ok ms) /\
  (forall xs ms : list R, mode xs = Ok ms -> mode ms = Ok ms).
Proof.
  split.
  - intros xs ms Hnan Hm.
    assert (Hne : xs <> []) by (intros ->; discriminate).
    destruct (@mode_on_equivalence float _ (fun x => is_nan x = false)
                float_eq_refl
                (fun a b _ _ => @float_eq_sym a b)
                (fun a b c _ _ _ => @float_eq_trans a b c) xs Hne Hnan)
      as (ms' & Hm' & Hms & Hd & _).
    assert (ms' = ms) by congruence. subst ms'.
    now apply mode_of_distinct.
  - intros xs ms Hm.
    assert (Hne : xs <> []) by (intros ->; discriminate).
    destruct (@mode_on_equivalence R _ (fun _ => True)) with (xs := xs)
      as (ms' & Hm' & Hms & Hd & _); try assumption.
    + intros a _. cbn. destruct (Req_dec_T a a); congruence.
    + intros a b _ _. cbn. destruct (Req_dec_T a b), (Req_dec_T b a); congruence.
    + intros a b c _ _ _. cbn.
      destruct (Req_dec_T a b), (Req_dec_T b c), (Req_dec_T a c); congruence.
    + apply Forall_forall. trivial.
    + assert (ms' = ms) by congruence. subst ms'.
      now apply mode_of_distinct.
Qed.

(** ** statistics.py: the order of the sample *)

Section OrderOfSample.
Context {S : Type} `{Scalar S}.
Hypothesis flt_asym : forall a b : S, flt a b = true -> flt b a = false.
Hypothesis in_order_trans :
  forall a b c : S, in_order a b -> in_order b c -> in_order a c.
Hypothesis in_order_antisym : forall a b : S, in_order a b -> in_order b a -> a = b.

Lemma sorted_StronglySorted (xs : list S) : StronglySorted in_order (sorted xs).
Proof.
  apply Sorted_StronglySorted; [exact in_order_trans|].
  now apply sorted_Sorted.
Qed.

Lemma StronglySorted_unique (l1 l2 : list S) :
  Permutation l1 l2 ->
  StronglySorted in_order l1 -> StronglySorted in_order l2 -> l1 = l2.
Proof.
  revert l2. induction l1 as [|a l1 IH]; intros l2 Hp H1 H2.
  - apply Permutation_nil in Hp. now subst.
  - destruct l2 as [|b l2].
    { apply Permutation_sym, Permutation_nil in Hp. discriminate. }
    inversion H1 as [|? ? Hs1 Ha]; subst. inversion H2 as [|? ? Hs2 Hb]; subst.
    assert (Hab : a = b).
    { assert (Hina : In a (b :: l2)) by (apply (Permutation_in a Hp); now left).
      assert (Hinb : In b (a :: l1))
        by (apply (Permutation_in b (Permutation_sym Hp)); now left).
      destruct Hina as [->|Hina]; [reflexivity|].
      destruct Hinb as [->|Hinb]; [reflexivity|].
      rewrite Forall_forall in Ha, Hb.
      apply in_order_antisym; auto. }
    subst b. f_equal. apply IH; try assumption.
    now apply Permutation_cons_inv with a.
Qed.

Lemma sorted_of_Permutation (xs ys : list S) :
  Permutation xs ys -> sorted xs = sorted ys.
Proof.
  intros Hp. apply StronglySorted_unique; try apply sorted_StronglySorted.
  rewrite (sorted_Permutation xs), Hp. symmetry. apply sorted_Permutation.
Qed.

(** Where [<] is a total order on the numbers, [median] and [quantile]
    do not depend on the order in which the sample is given. *)
Theorem sample_order_irrelevant (xs ys : list S) :
  Permutation xs ys ->
  median xs = median ys /\ forall p : S, quantile xs p = quantile ys p.
Proof.
  intros Hp. pose proof (sorted_of_Permutation Hp) as Hs.
  pose proof (Permutation_length Hp) as Hl.
  unfold median, _median_even, _median_odd, quantile. rewrite Hs, Hl.
  split; [reflexivity|]. intros p. reflexivity.
Qed.
End OrderOfSample.

(** ** 5_statistics.py: the histogram *)

Lemma indicator_sum (v : R) (x0 a n : nat) :
  v = INR x0 ->
  list_sum (map (fun x => if Req_dec_T v (IZR (Z.of_nat x)) then 1%nat else 0%nat)
                (seq a n))
  = if ((a <=? x0) && (x0 <? a + n))%nat then 1%nat else 0%nat.
Proof.
  intros ->. unfold list_sum. revert a. induction n as [|n IH]; intros a.
  - cbn [seq map fold_right]. rewrite Nat.add_0_r.
    destruct (Nat.leb_spec a x0), (Nat.ltb_spec x0 a); cbn; (reflexivity || lia).
  - cbn [seq map fold_right]. rewrite IH.
    destruct (Req_dec_T (INR x0) (IZR (Z.of_nat a))) as [E|Hne].
    + rewrite <- INR_IZR_INZ in E. apply INR_eq in E. subst a.
      destruct (Nat.leb_spec x0 x0), (Nat.ltb_spec x0 (x0 + Datatypes.S n)),
        (Nat.leb_spec (Datatypes.S x0) x0); cbn; (reflexivity || lia).
    + assert (a <> x0) by (intros ->; apply Hne; now rewrite INR_IZR_INZ).
      destruct (Nat.leb_spec a x0), (Nat.ltb_spec x0 (a + Datatypes.S n)),
        (Nat.leb_spec (Datatypes.S a) x0), (Nat.ltb_spec x0 (Datatypes.S a + n));
        cbn; (reflexivity || lia).
Qed.

Lemma list_sum_map_add {X : Type} (f g : X -> nat) (l : list X) :
  list_sum (map (fun x => (f x + g x)%nat) l) =
  (list_sum (map f l) + list_sum (map g l))%nat.
Proof.
  unfold list_sum. induction l as [|x l IH]; cbn [map fold_right]; [reflexivity|].
  rewrite IH. lia.
Qed.

Lemma ys_R (num_friends : list R) :
  FriendCounts.ys num_friends =
  map (fun x => count_occ Req_dec_T num_friends (INR x)) (seq 0 101).
Proof.
  unfold FriendCounts.ys. apply map_ext. intros x.
  rewrite counter_get_R. cbn [of_int R_scalar]. now rewrite <- INR_IZR_INZ.
Qed.

Lemma bars_total (num_friends : list R) (n : nat) :
  (forall v, In v num_friends -> exists x, (x < n)%nat /\ v = INR x) ->
  list_sum (map (fun x => count_occ Req_dec_T num_friends (INR x)) (seq 0 n))
  = length num_friends.
Proof.
  induction num_friends as [|v data IH]; intros Hrange.
  - cbn [count_occ length]. clear. unfold list_sum.
    induction (seq 0 n) as [|x l IH]; cbn [map fold_right]; [reflexivity|].
    now rewrite IH.
  - destruct (Hrange v) as (x0 & Hx0 & Hv); [now left|].
    rewrite map_ext with
      (g := fun x => ((if Req_dec_T v (IZR (Z.of_nat x)) then 1 else 0)
                      + count_occ Req_dec_T data (INR x))%nat).
    + rewrite list_sum_map_add, (@indicator_sum v x0 0 n Hv), IH.
      * destruct (Nat.leb_spec 0 x0), (Nat.ltb_spec x0 (0 + n)); cbn; lia.
      * intros w Hw. apply Hrange. now right.
    + intros x. cbn [count_occ]. rewrite <- INR_IZR_INZ.
      destruct (Req_dec_T v (INR x)); reflexivity.
Qed.

(** The histogram of the script, for any list of numbers in exact
    arithmetic (the data are ints): it has 101 bars, bar [x] counts the
    data points equal to [x], and when every data point is an integer
    from 0 to 100 the bars add up to the number of data points. *)
Theorem histogram_counts (num_friends : list R) :
  length (FriendCounts.ys num_friends) = 101%nat /\
  (forall x, (x < 101)%nat ->
     nth_error (FriendCounts.ys num_friends) x =
     Some (count_occ Req_dec_T num_friends (INR x))) /\
  ((forall v, In v num_friends -> exists x, (x < 101)%nat /\ v = INR x) ->
   list_sum (FriendCounts.ys num_friends) = length num_friends).
Proof.
  rewrite ys_R. split; [|split].
  - now rewrite length_map, length_seq.
  - intros x Hx. rewrite nth_error_map, nth_error_seq.
    destruct (Nat.ltb_spec x 101); [reflexivity|lia].
  - apply bars_total.
Qed.

(** ** n_tuples.py: what the methods change *)

Section VectorClass.
Context {S : Type} `{Scalar S}.

Lemma list_set_length {X : Type} (n : nat) (x : X) (l : list X) :
  length (NTuples.list_set n x l) = length l.
Proof.
  revert n. induction l as [|y l IH]; intros [|n]; cbn; try reflexivity.
  now rewrite IH.
Qed.

Lemma list_set_nth_same {X : Type} (n : nat) (x d : X) (l : list X) :
  (n < length l)%nat -> nth n (NTuples.list_set n x l) d = x.
Proof.
  revert n. induction l as [|y l IH]; intros [|n]; cbn; intros Hn;
    try lia; try reflexivity.
  apply IH. lia.
Qed.

Lemma list_set_nth_other {X : Type} (n m : nat) (x d : X) (l : list X) :
  n <> m -> nth m (NTuples.list_set n x l) d = nth m l d.
Proof.
  revert n m. induction l as [|y l IH]; intros [|n] [|m] Hnm; cbn;
    try reflexivity; try congruence.
  apply IH. congruence.
Qed.

(** The state the three methods end in: no list of numbers, no list of
    vectors and no vector other than [self] is changed; a new list holds
    the elements; in place [self] refers to it and keeps its [length];
    otherwise [self] too is as before and the new [Vector] refers to the
    new list. *)
Lemma finish_effect (self : NTuples.ref) (inplace : bool) (elements : list S)
      (h : NTuples.heap) :
  (self < length (NTuples.vectors h))%nat ->
  let (r, h') := NTuples.finish self inplace elements h in
  (forall l, (l < length (NTuples.lists h))%nat ->
             NTuples.list_at h' l = NTuples.list_at h l) /\
  NTuples.vector_lists h' = NTuples.vector_lists h /\
  (forall v, (v < length (NTuples.vectors h))%nat -> v <> self ->
             NTuples.vector_at h' v = NTuples.vector_at h v) /\
  NTuples.len h' self = NTuples.len h self /\
  (if inplace
   then r = Ok None /\ NTuples.items_of h' self = elements
   else NTuples.vector_at h' self = NTuples.vector_at h self /\
        r = Ok (Some (length (NTuples.vectors h))) /\
        NTuples.items_of h' (length (NTuples.vectors h)) = elements /\
        NTuples.len h' (length (NTuples.vectors h)) = Z.of_nat (length elements)).
Proof.
  intros Hself. unfold NTuples.finish, NTuples.new_list.
  destruct inplace; cbn [NTuples.Vector].
  - unfold NTuples.set_items, NTuples.list_at, NTuples.vector_at, NTuples.len,
      NTuples.items_of, NTuples.list_at, NTuples.vector_at.
    cbn [NTuples.lists NTuples.vectors NTuples.vector_lists].
    repeat split.
    + intros l Hl. now rewrite app_nth1.
    + intros v Hv Hne. now rewrite list_set_nth_other by congruence.
    + now rewrite list_set_nth_same.
    + rewrite list_set_nth_same by assumption. cbn [NTuples.items].
      now rewrite app_nth2, Nat.sub_diag by lia.
  - unfold NTuples.list_at, NTuples.vector_at, NTuples.len,
      NTuples.items_of, NTuples.list_at, NTuples.vector_at.
    cbn [NTuples.lists NTuples.vectors NTuples.vector_lists].
    repeat split.
    + intros l Hl. now rewrite app_nth1.
    + intros v Hv Hne. now rewrite app_nth1.
    + now rewrite app_nth1.
    + now rewrite app_nth1.
    + rewrite (app_nth2 (NTuples.vectors h)), Nat.sub_diag by lia.
      cbn [nth NTuples.items].
      now rewrite (app_nth2 (NTuples.lists h)), Nat.sub_diag by lia.
    + rewrite (app_nth2 (NTuples.vectors h)), Nat.sub_diag by lia.
      cbn [nth NTuples.length].
      now rewrite (app_nth2 (NTuples.lists h)), Nat.sub_diag by lia.
Qed.
Lemma well_formed_len (h : @NTuples.heap S) (v : NTuples.ref) :
  NTuples.well_formed h -> (v < length (NTuples.vectors h))%nat ->
  NTuples.len h v = Z.of_nat (length (NTuples.items_of h v)).
Proof.
  intros [Hv _] Hlt. rewrite Forall_forall in Hv.
  unfold NTuples.len, NTuples.items_of, NTuples.list_at, NTuples.vector_at.
  now apply Hv, nth_In.
Qed.

Lemma len_eqb_length (h : @NTuples.heap S) (v w : NTuples.ref) :
  NTuples.well_formed h ->
  (v < length (NTuples.vectors h))%nat -> (w < length (NTuples.vectors h))%nat ->
  (NTuples.len h v =? NTuples.len h w)%Z =
  (length (NTuples.items_of h v) =? length (NTuples.items_of h w))%nat.
Proof.
  intros Hwf Hv Hw. rewrite !well_formed_len by assumption.
  destruct (Nat.eqb_spec (length (NTuples.items_of h v)) (length (NTuples.items_of h w)));
    [apply Z.eqb_eq|apply Z.eqb_neq]; lia.
Qed.

(** The methods [add] and [subtract] against the functions of
    [algebra.py], on a heap where every [Vector] has the [length] of
    its list: a method succeeds exactly when the function does on the
    two lists of items, and then the elements of the result (of [self]
    when in place, of the new [Vector] otherwise) are what the function
    returns; when the function raises, the method raises an
    [AssertionError] of its own wording and leaves the heap as it was. *)
Theorem Vector_methods_agree (h : @NTuples.heap S) (self other : NTuples.ref) (inplace : bool) :
  NTuples.well_formed h ->
  (self < length (NTuples.vectors h))%nat -> (other < length (NTuples.vectors h))%nat ->
  let target := if inplace then self else length (NTuples.vectors h) in
  match add (NTuples.items_of h self) (NTuples.items_of h other) with
  | Ok r =>
      fst (NTuples.add self (NTuples.a_Vector other) inplace h)
      = Ok (if inplace then None else Some target) /\
      NTuples.items_of (snd (NTuples.add self (NTuples.a_Vector other) inplace h)) target = r
  | Raise _ =>
      NTuples.add self (NTuples.a_Vector other) inplace h
      = (Raise (AssertionError "vectors should be the same length"%string), h)
  end /\
  match subtract (NTuples.items_of h self) (NTuples.items_of h other) with
  | Ok r =>
      fst (NTuples.subtract self (NTuples.a_Vector other) inplace h)
      = Ok (if inplace then None else Some target) /\
      NTuples.items_of (snd (NTuples.subtract self (NTuples.a_Vector other) inplace h)) target = r
  | Raise _ =>
      NTuples.subtract self (NTuples.a_Vector other) inplace h
      = (Raise (AssertionError "vectors should be the same length"%string), h)
  end.
Proof.
  intros Hwf Hself Hother target.
  unfold add, subtract, NTuples.add, NTuples.subtract.
  rewrite (len_eqb_length Hwf Hself Hother).
  destruct (length (NTuples.items_of h self) =? length (NTuples.items_of h other))%nat.
  - split.
    + pose proof (@finish_effect self inplace
                    (map (fun p => fadd (fst p) (snd p))
                         (combine (NTuples.items_of h self) (NTuples.items_of h other)))
                    h Hself) as Hf.
      destruct (NTuples.finish self inplace _ h) as [r h'].
      destruct Hf as (_ & _ & _ & _ & Hres). cbn [fst snd]. subst target.
      destruct inplace; intuition.
    + pose proof (@finish_effect self inplace
                    (map (fun p => fsub (fst p) (snd p))
                         (combine (NTuples.items_of h self) (NTuples.items_of h other)))
                    h Hself) as Hf.
      destruct (NTuples.finish self inplace _ h) as [r h'].
      destruct Hf as (_ & _ & _ & _ & Hres). cbn [fst snd]. subst target.
      destruct inplace; intuition.
  - split; reflexivity.
Qed.

(** What [add] and [subtract] leave alone, on any heap and for any
    argument: no list of numbers is changed, the one [self.items]
    referred to included, nor any list of vectors, nor any [Vector]
    other than [self]; [self] keeps its [length], and is untouched
    unless the call is in place; a failed call changes nothing. *)
Theorem Vector_methods_keep (h : @NTuples.heap S) (self : NTuples.ref)
        (other : NTuples.object) (inplace : bool) :
  (self < length (NTuples.vectors h))%nat ->
  forall r h',
    (NTuples.add self other inplace h = (r, h') \/
     NTuples.subtract self other inplace h = (r, h')) ->
    (forall l, (l < length (NTuples.lists h))%nat ->
               NTuples.list_at h' l = NTuples.list_at h l) /\
    NTuples.vector_lists h' = NTuples.vector_lists h /\
    (forall v, (v < length (NTuples.vectors h))%nat -> v <> self ->
               NTuples.vector_at h' v = NTuples.vector_at h v) /\
    NTuples.len h' self = NTuples.len h self /\
    (inplace = false -> NTuples.vector_at h' self = NTuples.vector_at h self) /\
    (forall e, r = Raise e -> h' = h).
Proof.
  intros Hself r h' Hcall.
  assert (Hcases :
    (exists elements, NTuples.finish self inplace elements h = (r, h')) \/
    (exists e, r = Raise e /\ h' = h)).
  { unfold NTuples.add, NTuples.subtract in Hcall.
    destruct other as [o|l].
    - destruct (NTuples.len h self =? NTuples.len h o)%Z.
      + left. destruct Hcall as [Hc|Hc]; eexists; exact Hc.
      + right. destruct Hcall as [Hc|Hc]; inversion Hc; subst; eauto.
    - right. destruct Hcall as [Hc|Hc]; inversion Hc; subst; eauto. }
  destruct Hcases as [[elements Hfin]|(e & -> & ->)].
  - pose proof (@finish_effect self inplace elements h Hself) as Hf.
    rewrite Hfin in Hf. destruct Hf as (Hl & Hvl & Hv & Hlen & Hres).
    repeat split; try assumption.
    + intros ->. tauto.
    + intros e ->. destruct inplace; [destruct Hres as [Hr _]|destruct Hres as (_ & Hr & _)];
        discriminate.
  - repeat split; reflexivity.
Qed.
Lemma append_read (h : @NTuples.heap S) (vectors self : NTuples.ref) :
  (vectors < length (NTuples.vector_lists h))%nat ->
  NTuples.vector_list_at (NTuples.append vectors self h) vectors
  = NTuples.vector_list_at h vectors ++ [self] /\
  (forall l, l <> vectors ->
     NTuples.vector_list_at (NTuples.append vectors self h) l = NTuples.vector_list_at h l).
Proof.
  intros Hv. unfold NTuples.append, NTuples.vector_list_at.
  cbn [NTuples.vector_lists]. split.
  - now apply list_set_nth_same.
  - intros l Hl. apply list_set_nth_other. congruence.
Qed.

(** [vector_sum] and the list it is given: on an empty list it raises
    and changes nothing; on any other list it first appends [self] to
    that very list, so whether the call then succeeds or fails on the
    lengths, the caller's list is longer by [self] afterwards; no other
    list, of vectors or of numbers, is changed. *)
Theorem vector_sum_appends_self (h : @NTuples.heap S) (self vectors : NTuples.ref)
        (inplace : bool) :
  (self < length (NTuples.vectors h))%nat ->
  (vectors < length (NTuples.vector_lists h))%nat ->
  forall r h',
    NTuples.vector_sum self vectors inplace h = (r, h') ->
    (NTuples.vector_list_at h vectors = [] ->
     r = Raise (AssertionError "no vectors provided"%string) /\ h' = h) /\
    (NTuples.vector_list_at h vectors <> [] ->
     NTuples.vector_list_at h' vectors = NTuples.vector_list_at h vectors ++ [self] /\
     (forall l, l <> vectors ->
        NTuples.vector_list_at h' l = NTuples.vector_list_at h l) /\
     (forall l, (l < length (NTuples.lists h))%nat ->
        NTuples.list_at h' l = NTuples.list_at h l)).
Proof.
  intros Hself Hvectors r h' Hcall. unfold NTuples.vector_sum in Hcall.
  destruct (NTuples.vector_list_at h vectors) as [|a rest] eqn:Evs.
  { inversion Hcall; subst. split; [auto|congruence]. }
  split; [discriminate|]. intros _.
  destruct (append_read h self Hvectors) as [Hnew Hother].
  rewrite Evs in Hnew.
  set (h1 := NTuples.append vectors self h) in *.
  assert (Hread : forall h2 : @NTuples.heap S,
            NTuples.vector_lists h2 = NTuples.vector_lists h1 ->
            NTuples.vector_list_at h2 vectors = (a :: rest) ++ [self] /\
            (forall l, l <> vectors ->
               NTuples.vector_list_at h2 l = NTuples.vector_list_at h l)).
  { intros h2 E. unfold NTuples.vector_list_at in *. rewrite E. auto. }
  assert (Hdone : NTuples.vector_lists h' = NTuples.vector_lists h1 /\
                  (forall l, (l < length (NTuples.lists h))%nat ->
                     NTuples.list_at h' l = NTuples.list_at h l)).
  { cbv zeta in Hcall.
    destruct (forallb _ _); [|inversion Hcall; subst; split; reflexivity].
    destruct (mapM _ _) as [sum_of_all|e];
      [|inversion Hcall; subst; split; reflexivity].
    pose proof (@finish_effect self inplace sum_of_all h1 Hself) as Hf.
    rewrite Hcall in Hf. destruct Hf as (Hl & Hvl & _). split; [exact Hvl|].
    intros l Hl'. now apply Hl. }
  destruct Hdone as [Hvl Hlists]. destruct (Hread h' Hvl) as [Hv Ho].
  split; [exact Hv|]. split; [exact Ho|exact Hlists].
Qed.
Lemma mapM_ext_in {X Y : Type} (f g : X -> result Y) (l : list X) :
  (forall x, In x l -> f x = g x) -> mapM f l = mapM g l.
Proof.
  induction l as [|x l IH]; cbn; intros Hfg; [reflexivity|].
  rewrite Hfg by now left. destruct (g x); cbn; [|reflexivity].
  rewrite IH; [reflexivity|]. intros y Hy. apply Hfg. now right.
Qed.

Lemma forallb_ext_in {X : Type} (f g : X -> bool) (l : list X) :
  (forall x, In x l -> f x = g x) -> forallb f l = forallb g l.
Proof.
  induction l as [|x l IH]; cbn; intros Hfg; [reflexivity|].
  rewrite Hfg by now left. rewrite IH; [reflexivity|].
  intros y Hy. apply Hfg. now right.
Qed.

Lemma forallb_of_map {X Y : Type} (f : Y -> bool) (g : X -> Y) (l : list X) :
  forallb f (map g l) = forallb (fun x => f (g x)) l.
Proof. induction l as [|x l IH]; cbn; [reflexivity|]. now rewrite IH. Qed.

Lemma well_formed_members (h : @NTuples.heap S) (vectors : NTuples.ref) :
  NTuples.well_formed h -> (vectors < length (NTuples.vector_lists h))%nat ->
  forall v, In v (NTuples.vector_list_at h vectors) ->
            (v < length (NTuples.vectors h))%nat.
Proof.
  intros [_ Hvl] Hvectors v Hv. rewrite Forall_forall in Hvl.
  assert (Hl : In (NTuples.vector_list_at h vectors) (NTuples.vector_lists h))
    by now apply nth_In.
  specialize (Hvl _ Hl). rewrite Forall_forall in Hvl. now apply Hvl.
Qed.

(** The method [vector_sum] against the function of [algebra.py], on a
    heap where every [Vector] has the [length] of its list and for a
    non-empty list of vectors: the method does what the function does
    on the lists of items of the given vectors followed by that of
    [self]; it returns when the function returns, with those elements,
    and raises what the function raises. *)
Theorem vector_sum_method_agrees (h : @NTuples.heap S) (self vectors : NTuples.ref)
        (inplace : bool) :
  NTuples.well_formed h ->
  (self < length (NTuples.vectors h))%nat ->
  (vectors < length (NTuples.vector_lists h))%nat ->
  NTuples.vector_list_at h vectors <> [] ->
  let target := if inplace then self else length (NTuples.vectors h) in
  match vector_sum (map (NTuples.items_of h) (NTuples.vector_list_at h vectors ++ [self])) with
  | Ok r =>
      fst (NTuples.vector_sum self vectors inplace h)
      = Ok (if inplace then None else Some target) /\
      NTuples.items_of (snd (NTuples.vector_sum self vectors inplace h)) target = r
  | Raise e => fst (NTuples.vector_sum self vectors inplace h) = Raise e
  end.
Proof.
  intros Hwf Hself Hvectors Hne target.
  pose proof (well_formed_members Hwf Hvectors) as Hmem.
  destruct (append_read h self Hvectors) as [Hnew _].
  unfold NTuples.vector_sum.
  destruct (NTuples.vector_list_at h vectors) as [|a rest] eqn:Evs; [congruence|].
  cbv zeta. rewrite Hnew. clear Hnew.
  set (h1 := NTuples.append vectors self h).
  assert (Hvalid : forall v, In v ((a :: rest) ++ [self]) ->
                             (v < length (NTuples.vectors h))%nat).
  { intros v Hv. apply in_app_or in Hv. destruct Hv as [Hv|[<-|[]]]; auto. }
  assert (Hlen : forall v, In v ((a :: rest) ++ [self]) ->
                 NTuples.len h1 v = Z.of_nat (length (NTuples.items_of h v))).
  { intros v Hv. change (NTuples.len h1 v) with (NTuples.len h v).
    apply well_formed_len; auto. }
  cbn [app hd map]. unfold vector_sum.
  rewrite (Hlen a) by now left.
  assert (Hall :
    forallb (fun v => (NTuples.len h1 v =? Z.of_nat (length (NTuples.items_of h a)))%Z)
            (a :: rest ++ [self])
    = forallb (fun v => (length v =? length (NTuples.items_of h a))%nat)
              (NTuples.items_of h a :: map (NTuples.items_of h) (rest ++ [self]))).
  { change (NTuples.items_of h a :: map (NTuples.items_of h) (rest ++ [self]))
      with (map (NTuples.items_of h) (a :: rest ++ [self])).
    rewrite forallb_of_map. apply forallb_ext_in. intros v Hv.
    rewrite (Hlen v Hv).
    destruct (Nat.eqb_spec (length (NTuples.items_of h v))
                           (length (NTuples.items_of h a)));
      [apply Z.eqb_eq|apply Z.eqb_neq]; lia. }
  rewrite Hall.
  destruct (forallb _ (NTuples.items_of h a :: _)); [|reflexivity].
  unfold NTuples.range. rewrite Nat2Z.id, mapM_map.
  change (NTuples.items_of h a :: map (NTuples.items_of h) (rest ++ [self]))
    with (map (NTuples.items_of h) (a :: rest ++ [self])).
  match goal with
  | |- context [mapM ?f (seq 0 ?n)] =>
      lazymatch f with
      | context [h1] =>
          rewrite (@mapM_ext_in _ _ f
                     (fun i => col <- mapM (fun vec => py_index vec (Z.of_nat i))
                                           (map (NTuples.items_of h) (a :: rest ++ [self])) ;;
                               Ok (py_sum col))
                     (seq 0 n))
      end
  end.
  2:{ intros i _. now rewrite mapM_map. }
  destruct (mapM _ (seq 0 (length (NTuples.items_of h a)))) as [r|e];
    [|reflexivity].
  pose proof (@finish_effect self inplace r h1 Hself) as Hf.
  destruct (NTuples.finish self inplace r h1) as [res h'].
  destruct Hf as (_ & _ & _ & _ & Hres). cbn [fst snd]. subst target.
  destruct inplace; intuition.
Qed.
Lemma Forall_list_set {X : Type} (P : X -> Prop) (n : nat) (x : X) (l : list X) :
  Forall P l -> P x -> Forall P (NTuples.list_set n x l).
Proof.
  intros Hl Hx. revert n. induction Hl as [|y l Hy Hl IH]; intros [|n]; cbn.
  - constructor.
  - constructor.
  - now constructor.
  - constructor; [exact Hy|apply IH].
Qed.

Lemma vectors_grow (h : @NTuples.heap S) (elements : list S) :
  Forall (fun v => (NTuples.items v < length (NTuples.lists h))%nat /\
                   NTuples.length v
                   = Z.of_nat (length (nth (NTuples.items v) (NTuples.lists h) [])))
         (NTuples.vectors h) ->
  Forall (fun v => (NTuples.items v < length (NTuples.lists h ++ [elements]))%nat /\
                   NTuples.length v
                   = Z.of_nat (length (nth (NTuples.items v)
                                           (NTuples.lists h ++ [elements]) [])))
         (NTuples.vectors h).
Proof.
  apply Forall_impl. intros v [Hi Hl]. rewrite length_app. cbn [length].
  split; [lia|]. now rewrite app_nth1.
Qed.

Lemma finish_well_formed (self : NTuples.ref) (inplace : bool) (elements : list S)
      (h : @NTuples.heap S) :
  NTuples.well_formed h ->
  (inplace = true -> NTuples.len h self = Z.of_nat (length elements)) ->
  NTuples.well_formed (snd (NTuples.finish self inplace elements h)).
Proof.
  intros [Hv Hvl] Hlen. unfold NTuples.finish, NTuples.new_list.
  destruct inplace; cbn [snd NTuples.Vector]; unfold NTuples.well_formed;
    cbn [NTuples.set_items NTuples.lists NTuples.vectors NTuples.vector_lists].
  - split.
    + apply Forall_list_set; [now apply vectors_grow|].
      cbn [NTuples.items NTuples.length]. rewrite length_app. cbn [length].
      split; [lia|]. rewrite app_nth2, Nat.sub_diag by lia. cbn [nth].
      unfold NTuples.vector_at. cbn [NTuples.vectors].
      now apply Hlen.
    + now rewrite list_set_length.
  - split.
    + apply Forall_app. split; [now apply vectors_grow|].
      constructor; [|constructor]. cbn [NTuples.items NTuples.length].
      rewrite length_app. cbn [length]. split; [lia|].
      unfold NTuples.list_at. cbn [NTuples.lists]. reflexivity.
    + revert Hvl. apply Forall_impl. intros l. apply Forall_impl.
      intros v Hlt. rewrite length_app. lia.
Qed.

Lemma append_well_formed (h : @NTuples.heap S) (vectors self : NTuples.ref) :
  NTuples.well_formed h -> (self < length (NTuples.vectors h))%nat ->
  NTuples.well_formed (NTuples.append vectors self h).
Proof.
  intros [Hv Hvl] Hself. split; [exact Hv|].
  cbn [NTuples.append NTuples.vector_lists NTuples.vectors].
  apply Forall_list_set; [exact Hvl|].
  apply Forall_app. split; [|now repeat constructor].
  unfold NTuples.vector_list_at.
  destruct (Nat.lt_ge_cases vectors (length (NTuples.vector_lists h))) as [Hlt|Hge].
  - rewrite Forall_forall in Hvl. now apply Hvl, nth_In.
  - rewrite nth_overflow by assumption. constructor.
Qed.

(** The class invariant, that every [Vector] has the [length] of the
    list it refers to and every reference is valid, is set up by the
    constructor and kept by [add], [subtract] and [vector_sum], in
    place or not, whether they return or raise. *)
Theorem well_formed_kept (h : @NTuples.heap S) (self : NTuples.ref) :
  NTuples.well_formed h -> (self < length (NTuples.vectors h))%nat ->
  (forall its, (its < length (NTuples.lists h))%nat ->
     NTuples.well_formed (snd (NTuples.Vector its h))) /\
  (forall other inplace, (other < length (NTuples.vectors h))%nat ->
     NTuples.well_formed (snd (NTuples.add self (NTuples.a_Vector other) inplace h)) /\
     NTuples.well_formed (snd (NTuples.subtract self (NTuples.a_Vector other) inplace h))) /\
  (forall vectors inplace, (vectors < length (NTuples.vector_lists h))%nat ->
     NTuples.well_formed (snd (NTuples.vector_sum self vectors inplace h))).
Proof.
  intros Hwf Hself. split; [|split].
  - intros its Hits. destruct Hwf as [Hv Hvl]. split;
      cbn [snd NTuples.Vector NTuples.lists NTuples.vectors NTuples.vector_lists].
    + apply Forall_app. split; [exact Hv|]. repeat constructor; assumption.
    + revert Hvl. apply Forall_impl. intros l. apply Forall_impl.
      intros v Hlt. rewrite length_app. lia.
  - intros other inplace Hother.
    unfold NTuples.add, NTuples.subtract.
    rewrite (len_eqb_length Hwf Hself Hother).
    destruct (Nat.eqb_spec (length (NTuples.items_of h self))
                           (length (NTuples.items_of h other))) as [E|_];
      [|split; exact Hwf].
    split; apply finish_well_formed; try assumption; intros _;
      rewrite (well_formed_len Hwf Hself), length_map, length_combine; lia.
  - intros vectors inplace Hvectors. unfold NTuples.vector_sum.
    destruct (NTuples.vector_list_at h vectors) as [|a rest] eqn:Evs; [exact Hwf|].
    cbv zeta.
    pose proof (append_well_formed vectors Hwf Hself) as Hwf1.
    destruct (append_read h self Hvectors) as [Hnew _]. rewrite Evs in Hnew.
    set (h1 := NTuples.append vectors self h) in *.
    rewrite Hnew. cbn [app hd].
    destruct (forallb _ _) eqn:Hall; [|exact Hwf1].
    destruct (mapM _ _) as [sum_of_all|e] eqn:Hsum; [|exact Hwf1].
    apply finish_well_formed; [exact Hwf1|]. intros _.
    apply mapM_Ok_length in Hsum.
    unfold NTuples.range in Hsum. rewrite length_map, length_seq in Hsum.
    rewrite forallb_forall in Hall.
    assert (Hs : In self (a :: rest ++ [self])).
    { right. apply in_or_app. right. now left. }
    apply Hall, Z.eqb_eq in Hs. rewrite Hs, Hsum.
    assert (Ha : (a < length (NTuples.vectors h))%nat).
    { apply (well_formed_members Hwf Hvectors). rewrite Evs. now left. }
    change (NTuples.len h1 a) with (NTuples.len h a).
    rewrite (well_formed_len Hwf Ha). lia.
Qed.
End VectorClass.

(** ** algebra.py: the distance from a vector to itself *)

Lemma float_finite_cases (a : float) :
  is_finite a = true ->
  match Prim2SF a with
  | S754_zero _ | S754_finite _ _ _ => True
  | _ => False
  end.
Proof.
  unfold is_finite, is_nan, is_infinity. intros Hf.
  apply negb_true_iff, orb_false_iff in Hf. destruct Hf as [Hnan Hinf].
  apply negb_false_iff in Hnan.
  rewrite eqb_spec in Hnan. rewrite eqb_spec, abs_spec in Hinf.
  change (Prim2SF infinity) with (S754_infinity false) in Hinf.
  destruct (Prim2SF a) as [s|s| |s m e]; cbn in *; try exact I; discriminate.
Qed.

Lemma float_sub_self (a : float) : is_finite a = true -> PrimFloat.sub a a = 0%float.
Proof.
  intros Hf. apply float_finite_cases in Hf. apply Prim2SF_inj.
  rewrite sub_spec. change (Prim2SF 0) with (S754_zero false).
  destruct (Prim2SF a) as [s|s| |s m e]; try contradiction.
  - now destruct s.
  - cbn. now rewrite Z.sub_diag.
Qed.

(** On floats the distance from a vector of finite numbers to itself
    is 0. *)
Theorem distance_to_itself (v : list float) :
  Forall (fun a => is_finite a = true) v -> distance v v = Ok 0%float.
Proof.
  intros Hfin. unfold distance. rewrite subtract_equal_length by reflexivity.
  cbn [bind]. apply magnitude_float.
  induction Hfin as [|a v Ha _ IH]; cbn; constructor; [|exact IH].
  change (fsub a a) with (PrimFloat.sub a a). now rewrite float_sub_self.
Qed.

(** ** statistics.py: [quantile] in exact arithmetic *)

Section QuantileOrder.
Local Open Scope R_scope.

Lemma Int_part_le (x y : R) : x <= y -> (Int_part x <= Int_part y)%Z.
Proof.
  intros Hxy. destruct (base_Int_part x) as [Hx _], (base_Int_part y) as [_ Hy].
  apply Z.lt_succ_r, lt_IZR. rewrite succ_IZR. lra.
Qed.

Lemma StronglySorted_nth_le (l : list R) (i j : nat) (a b : R) :
  StronglySorted Rle l -> (i <= j)%nat ->
  nth_error l i = Some a -> nth_error l j = Some b -> a <= b.
Proof.
  intros Hs. revert i j. induction Hs as [|x l Hs IH Hx]; intros i j Hij Ha Hb.
  - destruct i; discriminate.
  - destruct i as [|i], j as [|j]; cbn in *.
    + inversion Ha; inversion Hb; subst. lra.
    + inversion Ha; subst. rewrite Forall_forall in Hx.
      apply Hx. now apply nth_error_In with j.
    + lia.
    + apply (IH i j); [lia|assumption|assumption].
Qed.

Lemma quantile_index_R (xs : list R) (p : R) :
  0 <= p ->
  to_int (fmul p (of_int (Z.of_nat (length xs)))) = Ok (Int_part (p * INR (length xs))).
Proof.
  intros Hp. cbn [to_int fmul of_int R_scalar]. rewrite <- INR_IZR_INZ.
  rewrite Rtrunc_nonneg; [reflexivity|].
  apply Rmult_le_pos; [exact Hp|apply pos_INR].
Qed.

(** In exact arithmetic [quantile] is monotone in [p] on [0, 1), and
    [quantile xs 0] is the smallest element of the sample. *)
Theorem quantile_monotone (xs : list R) (p q : R) :
  xs <> [] -> 0 <= p <= q -> q < 1 ->
  (exists a b, quantile xs p = Ok a /\ quantile xs q = Ok b /\ a <= b) /\
  (exists m, quantile xs 0 = Ok m /\ forall x, In x xs -> m <= x).
Proof.
  intros Hne [Hp Hpq] Hq.
  assert (Hn : 0 < INR (length xs)).
  { apply lt_0_INR. destruct xs; [congruence|cbn; lia]. }
  destruct (sorted_R xs) as [Hperm Hsorted].
  assert (Hat : forall r, 0 <= r < 1 ->
            exists a, nth_error (sorted xs) (Z.to_nat (Int_part (r * INR (length xs))))
                      = Some a /\ quantile xs r = Ok a).
  { intros r [Hr0 Hr1].
    apply (proj1 (quantile_at_index xs r (quantile_index_R xs Hr0))).
    apply Int_part_bounds. split; nra. }
  split.
  - destruct (Hat p) as (a & Hna & Ha); [lra|].
    destruct (Hat q) as (b & Hnb & Hb); [lra|].
    exists a, b. split; [exact Ha|]. split; [exact Hb|].
    assert (Hle : (Int_part (p * INR (length xs)) <= Int_part (q * INR (length xs)))%Z)
      by (apply Int_part_le; nra).
    refine (@StronglySorted_nth_le (sorted xs) _ _ a b Hsorted _ Hna Hnb).
    lia.
  - destruct (Hat 0) as (m & Hnm & Hm); [lra|].
    exists m. split; [exact Hm|]. intros x Hx.
    apply (Permutation_in x (Permutation_sym Hperm)) in Hx.
    apply In_nth_error in Hx. destruct Hx as [j Hj].
    refine (@StronglySorted_nth_le (sorted xs) _ _ m x Hsorted _ Hnm Hj).
    rewrite Rmult_0_l.
    replace (Int_part 0) with 0%Z; [cbn; lia|].
    change 0 with (INR 0). now rewrite Int_part_INR.
Qed.
End QuantileOrder.

(** ** The assertions of n_tuples.py *)

Module NTuplesTests.

Example test_vector_length :
  NTuples.len test_heap 0 = 3%Z /\ NTuples.len test_heap 1 = 3%Z.
Proof. split; reflexivity. Qed.

Example test_vector_add :
  let (r, h) := NTuples.add 0 (NTuples.a_Vector 1) false test_heap in
  r = Ok (Some 2%nat) /\ NTuples.items_of h 2 = [5; 7; 9]%float.
Proof. vm_compute. auto. Qed.

Example test_vector_add_op :
  let (r, h) := NTuples.__add__ 0 (NTuples.a_Vector 1) test_heap in
  r = Ok (Some 2%nat) /\ NTuples.items_of h 2 = [5; 7; 9]%float.
Proof. vm_compute. auto. Qed.

Example test_vector_add_inplace :
  let (r, h) := NTuples.add 0 (NTuples.a_Vector 1) true test_heap in
  r = Ok None /\ NTuples.items_of h 0 = [5; 7; 9]%float.
Proof. vm_compute. auto. Qed.
End NTuplesTests.

(** ** The further properties at concrete inputs *)

Section FurtherInstances.

Lemma binary_operations_assert_length_witness :
  (exists r s d,
     add [1; 2]%float [3; 4]%float = Ok r /\
     subtract [1; 2]%float [3; 4]%float = Ok s /\
     dot [1; 2]%float [3; 4]%float = Ok d) /\
  dot [1; 2]%float [1; 2; 3]%float
  = Raise (AssertionError "vectors must be the same length"%string).
Proof.
  split.
  - apply (proj1 (@binary_operations_assert_length float _ [1; 2]%float [3; 4]%float)).
    reflexivity.
  - apply (proj2 (@binary_operations_assert_length float _ [1; 2]%float [1; 2; 3]%float)).
    cbn. lia.
Defined.

Lemma vector_sum_result_witness :
  vector_sum [[1; 2]; [3; 4]]%float
  = Ok (map (fun i => py_sum (column [[1; 2]; [3; 4]]%float i)) (seq 0 2)) /\
  vector_sum [[1; 2]; [3]]%float
  = Raise (AssertionError "vectors must be the same length"%string).
Proof.
  destruct (@vector_sum_result float _) as [_ Hsum]. split.
  - apply (proj1 (Hsum [1; 2]%float [[3; 4]]%float)).
    intros v [<-|[]]. reflexivity.
  - apply (proj2 (Hsum [1; 2]%float [[3]]%float)).
    intros Hall. specialize (Hall [3]%float (or_introl eq_refl)). discriminate.
Defined.

Lemma vector_mean_result_witness :
  (exists m,
     vector_mean [[1; 2]; [3; 4]]%float = Ok m /\ length m = 2%nat /\
     forall i, (i < 2)%nat ->
       nth_error m i =
       Some (fmul (fdiv (of_int 1) (of_int 2))
                  (py_sum (column [[1; 2]; [3; 4]]%float i)))) /\
  vector_mean [[1; 2]; [3]]%float
  = Raise (AssertionError "vectors must be the same length"%string).
Proof.
  split.
  - apply (proj1 (@vector_mean_result float _ [1; 2]%float [[3; 4]]%float)).
    intros v [<-|[]]. reflexivity.
  - apply (proj2 (@vector_mean_result float _ [1; 2]%float [[3]]%float)).
    intros Hall. specialize (Hall [3]%float (or_introl eq_refl)). discriminate.
Defined.

Lemma make_matrix_entry_witness :
  (row <- get_row (make_matrix 2 3 (fun i j => if (i <=? j)%nat then 1 else 0)%float) 1 ;;
   py_index row 2) = Ok 1%float /\
  (col <- get_column (make_matrix 2 3 (fun i j => if (i <=? j)%nat then 1 else 0)%float) 2 ;;
   py_index col 1) = Ok 1%float.
Proof.
  apply (@make_matrix_entry float 2 3
           (fun i j => if (i <=? j)%nat then 1 else 0)%float 1 2); lia.
Defined.

Lemma identity_matrix_entries_witness :
  (row <- get_row (@identity_matrix float _ 3) 1 ;; py_index row 2) = Ok (of_int 0) /\
  get_column (@identity_matrix float _ 3) 1 = get_row (identity_matrix 3) 1.
Proof. apply (@identity_matrix_entries float _ 3 1 2); lia. Defined.

Lemma get_column_transposes_witness :
  length [2; 5]%float = length [[1; 2; 3]; [4; 5; 6]]%float /\
  forall (i : nat) (row : list float),
    get_row [[1; 2; 3]; [4; 5; 6]]%float (Z.of_nat i) = Ok row ->
    exists x, py_index row 1 = Ok x /\ py_index [2; 5]%float (Z.of_nat i) = Ok x.
Proof.
  apply (@get_column_transposes float [[1; 2; 3]; [4; 5; 6]]%float 1 [2; 5]%float).
  reflexivity.
Defined.

Lemma magnitude_never_raises_witness :
  exists d, distance [nan; 1]%float [infinity; 2]%float = Ok d.
Proof.
  apply (proj2 magnitude_never_raises [nan; 1]%float [infinity; 2]%float).
  reflexivity.
Defined.

Lemma median_result_witness :
  exists m, median [3; 1; 2]%float = Ok m /\
            (Nat.Odd (length [3; 1; 2]%float) -> In m [3; 1; 2]%float).
Proof.
  apply (proj2 (@median_result float _) [3; 1; 2]%float). discriminate.
Defined.

Lemma quantile_result_witness :
  (exists q, nth_error (sorted quantile_list) (Z.to_nat (10 + -1)) = Some q /\
             quantile quantile_list (-0.15)%float = Ok q) /\
  quantile quantile_list nan = Raise ValueError.
Proof.
  destruct (@quantile_result float _ quantile_list (-0.15)%float) as (Hk & _ & _).
  destruct (@quantile_result float _ quantile_list nan) as (_ & He & _).
  assert (H15 : to_int (fmul (-0.15)%float (of_int (Z.of_nat (length quantile_list))))
                = Ok (-1)%Z) by (vm_compute; reflexivity).
  assert (Hnan : to_int (fmul nan (of_int (Z.of_nat (length quantile_list))))
                 = Raise ValueError) by (vm_compute; reflexivity).
  split.
  - apply (proj2 (Hk (-1)%Z H15)). cbn. lia.
  - apply (He ValueError Hnan).
Defined.

Lemma quantile_store_witness :
  fst (Refs.quantile 0%nat 0.25%float [quantile_list])
  = quantile (Refs.contents [quantile_list] 0%nat) 0.25%float /\
  forall r, (r < 1)%nat ->
    Refs.contents (snd (Refs.quantile 0%nat 0.25%float [quantile_list])) r
    = Refs.contents [quantile_list] r.
Proof.
  apply (@quantile_store float _ [quantile_list] 0%nat 0.25%float). cbn. lia.
Defined.

Lemma mode_result_witness :
  exists ms, mode [nan; 1; 1]%float = Ok ms /\ ms <> [] /\
             forall m, In m ms -> In m [nan; 1; 1]%float.
Proof.
  apply (proj2 (@mode_result float _) [nan; 1; 1]%float). discriminate.
Defined.

Lemma Counter_lookup_witness :
  counter_get (Counter [1; 2; 2]%float) 2%float = occurrences 2%float [1; 2; 2]%float /\
  counter_get (Counter [1; 2; 2]%float) 7%float = occurrences 7%float [1; 2; 2]%float.
Proof.
  destruct Counter_lookup as [Hfloat _].
  split; apply Hfloat; repeat constructor.
Defined.

Lemma mode_idempotent_witness :
  mode [4; 8]%float = Ok [4; 8]%float.
Proof.
  apply (proj1 mode_idempotent [1; 4; 4; 8; 8]%float [4; 8]%float).
  - repeat constructor.
  - vm_compute. reflexivity.
Defined.

Lemma sample_order_irrelevant_witness :
  median [2; 1]%R = median [1; 2]%R /\
  forall p : R, quantile [2; 1]%R p = quantile [1; 2]%R p.
Proof.
  apply (@sample_order_irrelevant R _).
  - exact R_lt_asym.
  - intros a b c. rewrite !in_order_R. apply Rle_trans.
  - intros a b. rewrite !in_order_R. apply Rle_antisym.
  - apply perm_swap.
Defined.

Lemma histogram_counts_witness :
  list_sum (FriendCounts.ys [0; 100; 100]%R) = 3%nat.
Proof.
  apply (proj2 (proj2 (histogram_counts [0; 100; 100]%R))).
  intros v [<-|[<-|[<-|[]]]].
  - exists 0%nat. split; [lia|reflexivity].
  - exists 100%nat. split; [lia|]. rewrite INR_IZR_INZ. reflexivity.
  - exists 100%nat. split; [lia|]. rewrite INR_IZR_INZ. reflexivity.
Defined.
Lemma distance_to_itself_witness :
  distance [1.5; -0; 3]%float [1.5; -0; 3]%float = Ok 0%float.
Proof.
  apply (@distance_to_itself [1.5; -0; 3]%float). repeat constructor.
Defined.

Lemma quantile_monotone_witness :
  (exists a b, quantile [3; 1; 2]%R (1 / 4)%R = Ok a /\
               quantile [3; 1; 2]%R (3 / 4)%R = Ok b /\ (a <= b)%R) /\
  (exists m, quantile [3; 1; 2]%R 0%R = Ok m /\
             forall x, In x [3; 1; 2]%R -> (m <= x)%R).
Proof.
  apply (@quantile_monotone [3; 1; 2]%R (1 / 4)%R (3 / 4)%R).
  - discriminate.
  - lra.
  - lra.
Defined.

Lemma test_heap_well_formed : NTuples.well_formed test_heap.
Proof.
  split; cbn.
  - repeat constructor.
  - repeat constructor.
Qed.

Lemma Vector_methods_agree_witness :
  (fst (NTuples.add 0 (NTuples.a_Vector 1) true test_heap) = Ok None /\
   NTuples.items_of (snd (NTuples.add 0 (NTuples.a_Vector 1) true test_heap)) 0
   = [5; 7; 9]%float) /\
  (fst (NTuples.subtract 0 (NTuples.a_Vector 1) false test_heap) = Ok (Some 2%nat) /\
   NTuples.items_of (snd (NTuples.subtract 0 (NTuples.a_Vector 1) false test_heap)) 2
   = [-3; -3; -3]%float).
Proof.
  assert (H0 : (0 < length (NTuples.vectors test_heap))%nat) by (cbn; lia).
  assert (H1 : (1 < length (NTuples.vectors test_heap))%nat) by (cbn; lia).
  split.
  - destruct (proj1 (@Vector_methods_agree float _ test_heap 0%nat 1%nat true
                       test_heap_well_formed H0 H1)) as [Hr Hi].
    split; [exact Hr|]. etransitivity; [exact Hi|]. vm_compute. reflexivity.
  - destruct (proj2 (@Vector_methods_agree float _ test_heap 0%nat 1%nat false
                       test_heap_well_formed H0 H1)) as [Hr Hi].
    split; [exact Hr|]. etransitivity; [exact Hi|]. vm_compute. reflexivity.
Defined.

Lemma Vector_methods_keep_witness :
  let h := test_heap in
  let h' := snd (NTuples.add 0 (NTuples.a_Vector 1) true h) in
  (forall l, (l < 2)%nat -> NTuples.list_at h' l = NTuples.list_at h l) /\
  NTuples.vector_lists h' = NTuples.vector_lists h /\
  (forall v, (v < 2)%nat -> v <> 0%nat -> NTuples.vector_at h' v = NTuples.vector_at h v) /\
  NTuples.len h' 0 = NTuples.len h 0.
Proof.
  intros h h'.
  assert (H0 : (0 < length (NTuples.vectors h))%nat) by (cbn; lia).
  destruct (@Vector_methods_keep float _ h 0%nat (NTuples.a_Vector 1) true H0
              (fst (NTuples.add 0 (NTuples.a_Vector 1) true h)) h')
    as (Hl & Hvl & Hv & Hlen & _).
  - left. apply surjective_pairing.
  - repeat split; assumption.
Defined.

Lemma vector_sum_appends_self_witness :
  NTuples.vector_list_at (snd (NTuples.vector_sum 0 0 false test_heap)) 0 = [1; 0]%nat.
Proof.
  assert (H0 : (0 < length (NTuples.vectors test_heap))%nat) by (cbn; lia).
  assert (Hl : (0 < length (NTuples.vector_lists test_heap))%nat) by (cbn; lia).
  destruct (@vector_sum_appends_self float _ test_heap 0%nat 0%nat false H0 Hl
              (fst (NTuples.vector_sum 0 0 false test_heap))
              (snd (NTuples.vector_sum 0 0 false test_heap)))
    as [_ Hne].
  - apply surjective_pairing.
  - apply Hne. discriminate.
Defined.

Lemma vector_sum_method_agrees_witness :
  fst (NTuples.vector_sum 0 0 false test_heap) = Ok (Some 2%nat) /\
  NTuples.items_of (snd (NTuples.vector_sum 0 0 false test_heap)) 2 = [5; 7; 9]%float.
Proof.
  assert (H0 : (0 < length (NTuples.vectors test_heap))%nat) by (cbn; lia).
  assert (Hl : (0 < length (NTuples.vector_lists test_heap))%nat) by (cbn; lia).
  assert (Hne : NTuples.vector_list_at test_heap 0 <> []) by discriminate.
  assert (Hsum : vector_sum (map (NTuples.items_of test_heap)
                                 (NTuples.vector_list_at test_heap 0 ++ [0%nat]))
                 = Ok [5; 7; 9]%float) by (vm_compute; reflexivity).
  pose proof (@vector_sum_method_agrees float _ test_heap 0%nat 0%nat false
                test_heap_well_formed H0 Hl Hne) as Ha.
  cbv zeta in Ha.
  destruct (vector_sum (map (NTuples.items_of test_heap)
                            (NTuples.vector_list_at test_heap 0 ++ [0%nat])))
    as [r|e]; [|discriminate].
  injection Hsum as ->. exact Ha.
Defined.

Lemma well_formed_kept_witness :
  NTuples.well_formed (snd (NTuples.add 0 (NTuples.a_Vector 1) true test_heap)) /\
  NTuples.well_formed (snd (NTuples.vector_sum 0 0 true test_heap)).
Proof.
  assert (H0 : (0 < length (NTuples.vectors test_heap))%nat) by (cbn; lia).
  destruct (@well_formed_kept float _ test_heap 0%nat test_heap_well_formed H0)
    as (_ & Hbin & Hsum).
  split.
  - apply (Hbin 1%nat true). cbn. lia.
  - apply (Hsum 0%nat true). cbn. lia.
Defined.
End FurtherInstances.
